(** * Zenith: the live-state synchronisation layer of [frontend/src/App.js]

    A shallow embedding of the React component [App]: its five [useState]
    cells (the spec's ViewState), the three effects, the two asynchronous
    fetch functions with their continuations, the display formatters and
    the pass-duration expression.  The component is event driven, so it is
    modelled as a transition system: one transition per callback that the
    browser can run (mount, geolocation callbacks, interval tick, click on
    "Refresh Passes", settlement of an axios promise, unmount).  [step] is
    what the callback does; [react_step] adds what React makes of it. *)

From Stdlib Require Import ZArith QArith Qround.
From stdpp Require Import base option list strings.

(** ** JavaScript values used by the component *)

(** A JavaScript number, as far as the component computes with it: NaN or a
    finite value, the latter written as the rational it denotes.  The only
    arithmetic in the component is the difference of two time values (exact
    on integers below 2^53) and a division by the literal 60000, which
    IEEE 754 rounds correctly, so an exactly representable quotient is
    returned as such. *)
Inductive number : Type :=
| NaN
| Fin (q : Q).

(** A [Date] object: its time value is an integral number of milliseconds
    since the epoch, or NaN ("Invalid Date"). *)
Inductive JSDate : Type :=
| InvalidDate
| ValidDate (ms : Z).

Inductive JSError : Type :=
| TypeError (message : string)
| RangeError (message : string)
| AxiosError (message : string).

(** Completion of a JavaScript expression: a value or a thrown exception. *)
Inductive js (A : Type) : Type :=
| Return (a : A)
| Throw (e : JSError).
Arguments Return {A} a.
Arguments Throw {A} e.

(** [try { body } catch (e) { handler e }] *)
Definition try_catch {A} (body : js A) (handler : JSError -> js A) : js A :=
  match body with
  | Return a => Return a
  | Throw e => handler e
  end.

(** [a - b] on two Date objects: both are converted by [valueOf]. *)
Definition Date_sub (a b : JSDate) : number :=
  match a, b with
  | ValidDate ta, ValidDate tb => Fin (inject_Z (ta - tb))
  | _, _ => NaN
  end.

(** [x / d] for a finite non-zero literal [d]. *)
Definition num_div (x : number) (d : Q) : number :=
  match x with
  | NaN => NaN
  | Fin q => Fin (q / d)
  end.

(** [Math.round]: the integer nearest to [x], ties towards +infinity. *)
Definition Math_round (x : number) : number :=
  match x with
  | NaN => NaN
  | Fin q => Fin (inject_Z (Qfloor (q + (1 # 2))))
  end.

(** ** Data exchanged with the backend (spec, section 6) *)

(** An element of the array answered by [GET /api/passes]. *)
Record Pass : Type := mkPass {
  start_time : string;
  max_time : string;
  end_time : string;
  visibility_score : number
}.

(** The object answered by [GET /api/location/ISS]. *)
Record LocationData : Type := mkLocationData {
  data_lat : number;
  data_lon : number;
  data_alt : number;
  data_name : string;
  data_timestamp : string
}.

(** The two requests the component issues through [axios.get]. *)
Inductive Request : Type :=
| GetPasses (lat lon : number)
| GetLocation (objectId : string).

(** How an axios promise settles. *)
Inductive AxiosResult (A : Type) : Type :=
| Resolved (data : A)
| Rejected (err : JSError).
Arguments Resolved {A} data.
Arguments Rejected {A} err.

(** The three error codes of [GeolocationPositionError]. *)
Inductive GeolocationPositionError : Type :=
| PERMISSION_DENIED
| POSITION_UNAVAILABLE
| TIMEOUT.

(** ** ViewState: the five [useState] cells of [App] *)

Record LatLng : Type := mkLatLng {
  lat : number;
  lng : number
}.

Record SatelliteLocation : Type := mkSatelliteLocation {
  sat_lat : number;
  sat_lng : number;
  sat_alt : number;
  sat_name : string;
  sat_timestamp : JSDate
}.

Record ViewState : Type := mkViewState {
  userLocation : option LatLng;
  satelliteLocation : option SatelliteLocation;
  passes : list Pass;
  loading : bool;
  error : option string
}.

(** What [console.error] has printed: the label and the error object. *)
Inductive LogEntry : Type :=
| GeoLog (label : string) (err : GeolocationPositionError)
| ErrLog (label : string) (err : JSError).

Inductive Lifecycle : Type :=
| Created
| Mounted
| Unmounted.

(** The component instance together with what the browser holds for it. *)
Record Client : Type := mkClient {
  view : ViewState;
  lifecycle : Lifecycle;
  (** [getCurrentPosition] was called and neither callback ran yet *)
  geoPending : bool;
  (** the timer of [setInterval(fetchSatelliteLocation, 5000)] is armed *)
  polling : bool;
  (** axios promises not settled yet, oldest first *)
  inflight : list Request;
  console : list LogEntry
}.

Inductive Event : Type :=
| Mount (geolocation : bool)
| GeoSuccess (latitude longitude : number)
| GeoError (err : GeolocationPositionError)
| IntervalTick
| ClickRefresh
| PassesResponse (i : nat) (r : AxiosResult (list Pass))
| LocationResponse (i : nat) (r : AxiosResult LocationData)
| Unmount.

(** What [App] returns: the loading screen (lines 113-121), which prints
    [error] when it is set, or the main screen. *)
Inductive Screen : Type :=
| LoadingScreen (message : option string)
| MainScreen (center : LatLng) (marker : option SatelliteLocation)
    (rows : list Pass).

(** [response.data] as axios hands it over with its default settings:
    the parsed JSON value, or the body as a string when the body is not
    JSON.  A body that does not parse does not reject the promise. *)
Inductive ResponseData (A : Type) : Type :=
| Parsed (value : A)
| Unparsed (body : string).
Arguments Parsed {A} value.
Arguments Unparsed {A} body.

Definition axios_data {A} (JSON_parse : string -> option A) (body : string)
  : ResponseData A :=
  match JSON_parse body with
  | Some value => Parsed value
  | None => Unparsed body
  end.

(** The cells [fetchPasses] writes once the promise has settled (lines
    70-75), with the type of what [passes] holds left open: the code
    stores [response.data] as it comes. *)
Record FetchCells (A : Type) : Type := mkFetchCells {
  cell_passes : A;
  cell_loading : bool;
  cell_error : option string;
  cell_console : list LogEntry
}.
Arguments mkFetchCells {A} _ _ _ _.
Arguments cell_passes {A} _.
Arguments cell_loading {A} _.
Arguments cell_error {A} _.
Arguments cell_console {A} _.

(** ** State setters

    A call of a [useState] setter is modelled as the write to its cell.
    The component keeps no liveness flag of its own; what becomes of a
    setter call once the component is unmounted is decided by React, in
    [commit] below. *)

Definition setView (f : ViewState -> ViewState) (c : Client) : Client :=
  {| view := f (view c); lifecycle := lifecycle c;
     geoPending := geoPending c; polling := polling c;
     inflight := inflight c; console := console c |}.

Definition setUserLocation (v : option LatLng) : Client -> Client :=
  setView (fun s =>
    {| userLocation := v; satelliteLocation := satelliteLocation s;
       passes := passes s; loading := loading s; error := error s |}).

Definition setSatelliteLocation (v : option SatelliteLocation)
  : Client -> Client :=
  setView (fun s =>
    {| userLocation := userLocation s; satelliteLocation := v;
       passes := passes s; loading := loading s; error := error s |}).

Definition setPasses (v : list Pass) : Client -> Client :=
  setView (fun s =>
    {| userLocation := userLocation s;
       satelliteLocation := satelliteLocation s;
       passes := v; loading := loading s; error := error s |}).

Definition setLoading (v : bool) : Client -> Client :=
  setView (fun s =>
    {| userLocation := userLocation s;
       satelliteLocation := satelliteLocation s;
       passes := passes s; loading := v; error := error s |}).

Definition setError (v : option string) : Client -> Client :=
  setView (fun s =>
    {| userLocation := userLocation s;
       satelliteLocation := satelliteLocation s;
       passes := passes s; loading := loading s; error := v |}).

(** ** Browser services *)

Definition console_error (entry : LogEntry) (c : Client) : Client :=
  {| view := view c; lifecycle := lifecycle c; geoPending := geoPending c;
     polling := polling c; inflight := inflight c;
     console := console c ++ [entry] |}.

(** [axios.get]: the request leaves and its promise is pending. *)
Definition axios_get (req : Request) (c : Client) : Client :=
  {| view := view c; lifecycle := lifecycle c; geoPending := geoPending c;
     polling := polling c; inflight := inflight c ++ [req];
     console := console c |}.

(** The promise at position [i] settles and leaves the pending ones. *)
Definition settle (i : nat) (c : Client) : Client :=
  {| view := view c; lifecycle := lifecycle c; geoPending := geoPending c;
     polling := polling c; inflight := delete i (inflight c);
     console := console c |}.

Definition getCurrentPosition (c : Client) : Client :=
  {| view := view c; lifecycle := lifecycle c; geoPending := true;
     polling := polling c; inflight := inflight c; console := console c |}.

Definition positionDelivered (c : Client) : Client :=
  {| view := view c; lifecycle := lifecycle c; geoPending := false;
     polling := polling c; inflight := inflight c; console := console c |}.

Definition setInterval (c : Client) : Client :=
  {| view := view c; lifecycle := lifecycle c; geoPending := geoPending c;
     polling := true; inflight := inflight c; console := console c |}.

Definition clearInterval (c : Client) : Client :=
  {| view := view c; lifecycle := lifecycle c; geoPending := geoPending c;
     polling := false; inflight := inflight c; console := console c |}.

Definition setLifecycle (l : Lifecycle) (c : Client) : Client :=
  {| view := view c; lifecycle := l; geoPending := geoPending c;
     polling := polling c; inflight := inflight c; console := console c |}.

(** ** A concrete host, used to run the model on examples *)

(** A parser that knows three timestamps and rejects everything else. *)
Definition sample_Date_parse (s : string) : option Z :=
  if String.eqb s "2024-01-01T00:00:00Z" then Some 1704067200000%Z
  else if String.eqb s "2024-01-01T00:05:00Z" then Some 1704067500000%Z
  else if String.eqb s "2024-01-01T00:10:00Z" then Some 1704067800000%Z
  else None.

(** A formatter that prints the pattern it was given. *)
Definition sample_format_valid (ms : Z) (pattern : string) : js string :=
  Return pattern.

Definition sample_position : LocationData :=
  {| data_lat := Fin 51.5; data_lon := Fin (-0.12); data_alt := Fin 420;
     data_name := "ISS"; data_timestamp := "2024-01-01T00:00:00Z" |}.

Definition sample_position' : LocationData :=
  {| data_lat := Fin 48.8; data_lon := Fin 2.35; data_alt := Fin 421;
     data_name := "ISS"; data_timestamp := "2024-01-01T00:05:00Z" |}.

Definition sample_pass : Pass :=
  {| start_time := "2024-01-01T00:00:00Z";
     max_time := "2024-01-01T00:05:00Z";
     end_time := "2024-01-01T00:10:00Z";
     visibility_score := Fin 0.8 |}.

(** The client once the browser has reported the position (51.5, -0.12):
    the first pass fetch and the first poll are in flight, the timer is
    armed. *)
Definition sample_located : Client :=
  {| view :=
       {| userLocation := Some {| lat := Fin 51.5; lng := Fin (-0.12) |};
          satelliteLocation := None; passes := []; loading := true;
          error := None |};
     lifecycle := Mounted; geoPending := false; polling := true;
     inflight := [GetPasses (Fin 51.5) (Fin (-0.12)); GetLocation "ISS"];
     console := [] |}.

(** The same client unmounted at that moment. *)
Definition sample_unmounted : Client :=
  {| view := view sample_located;
     lifecycle := Unmounted; geoPending := false; polling := false;
     inflight := inflight sample_located; console := [] |}.

(** The mounted client still waiting for the browser's position. *)
Definition sample_waiting : Client :=
  {| view :=
       {| userLocation := None; satelliteLocation := None; passes := [];
          loading := true; error := None |};
     lifecycle := Mounted; geoPending := true; polling := false;
     inflight := []; console := [] |}.

Definition sample_events : list Event :=
  [Mount true; GeoSuccess (Fin 51.5) (Fin (-0.12))].

(** A product by 100 for the sample host, computed on the rationals. *)
Definition sample_times100 (x : number) : number :=
  match x with
  | NaN => NaN
  | Fin q => Fin (q * 100)
  end.

(** A position whose timestamp is not a date. *)
Definition sample_undated_position : LocationData :=
  {| data_lat := Fin 51.5; data_lon := Fin (-0.12); data_alt := Fin 420;
     data_name := "ISS"; data_timestamp := "soon" |}.

(** A pass none of whose timestamps is a date. *)
Definition sample_undated_pass : Pass :=
  {| start_time := "soon"; max_time := "later"; end_time := "never";
     visibility_score := NaN |}.

(** The located client once its first pass fetch has been answered: the
    main screen is up and the first poll is still in flight. *)
Definition sample_main : Client :=
  {| view :=
       {| userLocation := Some {| lat := Fin 51.5; lng := Fin (-0.12) |};
          satelliteLocation := None; passes := [sample_pass];
          loading := false; error := None |};
     lifecycle := Mounted; geoPending := false; polling := true;
     inflight := [GetLocation "ISS"]; console := [] |}.

(** The located client after its first pass fetch was rejected. *)
Definition sample_failed : Client :=
  {| view :=
       {| userLocation := Some {| lat := Fin 51.5; lng := Fin (-0.12) |};
          satelliteLocation := None; passes := [];
          loading := false;
          error :=
            Some "Failed to fetch satellite passes. Please try again later." |};
     lifecycle := Mounted; geoPending := false; polling := true;
     inflight := [GetLocation "ISS"];
     console := [ErrLog "Error fetching passes:" (AxiosError "Network Error")] |}.


(** A ViewState whose stored position carries an invalid date. *)
Definition sample_undated_view : ViewState :=
  {| userLocation := Some {| lat := Fin 51.5; lng := Fin (-0.12) |};
     satelliteLocation :=
       Some {| sat_lat := Fin 51.5; sat_lng := Fin (-0.12);
               sat_alt := Fin 420; sat_name := "ISS";
               sat_timestamp := InvalidDate |};
     passes := [sample_pass]; loading := false; error := None |}.

(** A JSON parser for the sample host: it knows the empty array. *)
Definition sample_JSON_parse (body : string) : option (list Pass) :=
  if String.eqb body "[]" then Some [] else None.

(** The cells of a client that shows one pass and is refreshing. *)
Definition sample_cells : FetchCells (ResponseData (list Pass)) :=
  {| cell_passes := Parsed [sample_pass]; cell_loading := true;
     cell_error := None; cell_console := [] |}.

Section App.

(** The host's date parser, [Date.parse]: the time value of a string, or
    none when the string is not a date. *)
Variable Date_parse : string -> option Z.

(** What date-fns prints for a valid date and a pattern. *)
Variable format_valid : Z -> string -> js string.

(** [new Date(timeString)] never throws on a string. *)
Definition new_Date (timeString : string) : JSDate :=
  match Date_parse timeString with
  | Some ms => ValidDate ms
  | None => InvalidDate
  end.

(** [format] of date-fns: it throws a RangeError on an invalid date. *)
Definition format (date : JSDate) (pattern : string) : js string :=
  match date with
  | InvalidDate => Throw (RangeError "Invalid time value")
  | ValidDate ms => format_valid ms pattern
  end.

(** ** Display helpers (lines 94-110 and 225-229) *)

Definition formatTime (timeString : string) : js string :=
  try_catch (format (new_Date timeString) "h:mm a")
            (fun _ => Return "Invalid time").

Definition formatDate (timeString : string) : js string :=
  try_catch (format (new_Date timeString) "MMM d")
            (fun _ => Return "Invalid date").

(** The number printed after "Duration:" for a pass. *)
Definition durationMinutes (pass : Pass) : number :=
  Math_round
    (num_div (Date_sub (new_Date (end_time pass)) (new_Date (start_time pass)))
             60000).

(** ** The component *)

Definition initialView : ViewState :=
  {| userLocation := None; satelliteLocation := None; passes := [];
     loading := true; error := None |}.

Definition init : Client :=
  {| view := initialView; lifecycle := Created; geoPending := false;
     polling := false; inflight := []; console := [] |}.

(** New York City, the fallback of lines 32 and 38. *)
Definition fallbackLocation : LatLng :=
  {| lat := Fin 40.7128; lng := Fin (-74.006) |}.

Definition geolocationDenied : string :=
  "Failed to get your location. Please enable location access.".

Definition geolocationUnsupported : string :=
  "Geolocation is not supported by your browser".

Definition passesFailed : string :=
  "Failed to fetch satellite passes. Please try again later.".

(** First effect (lines 19-40), with its two callbacks. *)
Definition onPosition (latitude longitude : number) (c : Client) : Client :=
  setUserLocation (Some {| lat := latitude; lng := longitude |}) c.

Definition onPositionError (err : GeolocationPositionError) (c : Client)
  : Client :=
  setUserLocation (Some fallbackLocation)
    (setError (Some geolocationDenied)
       (console_error (GeoLog "Error getting location:" err) c)).

Definition geolocationEffect (geolocation : bool) (c : Client) : Client :=
  if geolocation then getCurrentPosition c
  else setUserLocation (Some fallbackLocation)
         (setError (Some geolocationUnsupported) c).

(** [fetchPasses] (lines 61-77): the part up to the [await], and the two
    ways it resumes.  Reading [userLocation.lat] of [null] throws inside
    the [try], which lands in the [catch]. *)
Definition fetchPasses_catch (err : JSError) (c : Client) : Client :=
  setLoading false
    (setError (Some passesFailed)
       (console_error (ErrLog "Error fetching passes:" err) c)).

Definition fetchPasses_then (data : list Pass) (c : Client) : Client :=
  setLoading false (setPasses data c).

Definition fetchPasses (c : Client) : Client :=
  let c1 := setLoading true c in
  match userLocation (view c1) with
  | Some loc => axios_get (GetPasses (lat loc) (lng loc)) c1
  | None =>
      fetchPasses_catch
        (TypeError "Cannot read properties of null (reading 'lat')") c1
  end.

Definition fetchPasses_resume (r : AxiosResult (list Pass)) (c : Client)
  : Client :=
  match r with
  | Resolved data => fetchPasses_then data c
  | Rejected err => fetchPasses_catch err c
  end.

(** Lines 70-75 on the cells alone. *)
Definition fetchPasses_settled {A} (r : AxiosResult A) (s : FetchCells A)
  : FetchCells A :=
  match r with
  | Resolved data =>
      {| cell_passes := data; cell_loading := false;
         cell_error := cell_error s; cell_console := cell_console s |}
  | Rejected err =>
      {| cell_passes := cell_passes s; cell_loading := false;
         cell_error := Some passesFailed;
         cell_console :=
           cell_console s ++ [ErrLog "Error fetching passes:" err] |}
  end.

Definition fetchCells (c : Client) : FetchCells (list Pass) :=
  {| cell_passes := passes (view c); cell_loading := loading (view c);
     cell_error := error (view c); cell_console := console c |}.

(** [fetchSatelliteLocation] (lines 79-92), likewise. *)
Definition toSatelliteLocation (data : LocationData) : SatelliteLocation :=
  {| sat_lat := data_lat data; sat_lng := data_lon data;
     sat_alt := data_alt data; sat_name := data_name data;
     sat_timestamp := new_Date (data_timestamp data) |}.

Definition fetchSatelliteLocation_then (data : LocationData) (c : Client)
  : Client :=
  setSatelliteLocation (Some (toSatelliteLocation data)) c.

Definition fetchSatelliteLocation_catch (err : JSError) (c : Client)
  : Client :=
  console_error (ErrLog "Error fetching satellite location:" err) c.

Definition fetchSatelliteLocation (c : Client) : Client :=
  axios_get (GetLocation "ISS") c.

Definition fetchSatelliteLocation_resume (r : AxiosResult LocationData)
  (c : Client) : Client :=
  match r with
  | Resolved data => fetchSatelliteLocation_then data c
  | Rejected err => fetchSatelliteLocation_catch err c
  end.

(** Second and third effect (lines 43-59); both depend on [userLocation]
    and so run after a render in which it changed. *)
Definition passesEffect (c : Client) : Client :=
  match userLocation (view c) with
  | Some _ => fetchPasses c
  | None => c
  end.

Definition pollerEffect (c : Client) : Client :=
  match userLocation (view c) with
  | Some _ => setInterval (fetchSatelliteLocation c)
  | None => c
  end.

(** The cleanup the third effect returned, [clearInterval(intervalId)]. *)
Definition pollerCleanup (c : Client) : Client := clearInterval c.

Definition userLocationEffects (c : Client) : Client :=
  pollerEffect (passesEffect c).

(** Effects run for a mounted component only. *)
Definition rerender (c : Client) : Client :=
  match lifecycle c with
  | Mounted => userLocationEffects c
  | _ => c
  end.

Definition render (v : ViewState) : Screen :=
  match userLocation v with
  | Some loc =>
      if loading v then LoadingScreen (error v)
      else MainScreen loc (satelliteLocation v) (passes v)
  | None => LoadingScreen (error v)
  end.

(** The "Refresh Passes" button exists on the main screen only. *)
Definition refreshButton (c : Client) : bool :=
  match lifecycle c, render (view c) with
  | Mounted, MainScreen _ _ _ => true
  | _, _ => false
  end.

Definition isPasses (req : Request) : bool :=
  match req with GetPasses _ _ => true | GetLocation _ => false end.

(** ** Transitions: [None] when the browser cannot run that callback *)

Definition step (c : Client) (e : Event) : option Client :=
  match e with
  | Mount geolocation =>
      match lifecycle c with
      | Created =>
          Some (rerender (geolocationEffect geolocation
                            (setLifecycle Mounted c)))
      | _ => None
      end
  | GeoSuccess latitude longitude =>
      if geoPending c
      then Some (rerender (onPosition latitude longitude
                             (positionDelivered c)))
      else None
  | GeoError err =>
      if geoPending c
      then Some (rerender (onPositionError err (positionDelivered c)))
      else None
  | IntervalTick =>
      if polling c then Some (fetchSatelliteLocation c) else None
  | ClickRefresh =>
      if refreshButton c then Some (fetchPasses c) else None
  | PassesResponse i r =>
      match inflight c !! i with
      | Some (GetPasses _ _) => Some (fetchPasses_resume r (settle i c))
      | _ => None
      end
  | LocationResponse i r =>
      match inflight c !! i with
      | Some (GetLocation _) =>
          Some (fetchSatelliteLocation_resume r (settle i c))
      | _ => None
      end
  | Unmount =>
      match lifecycle c with
      | Mounted => Some (pollerCleanup (setLifecycle Unmounted c))
      | _ => None
      end
  end.

Fixpoint run (c : Client) (events : list Event) : option Client :=
  match events with
  | [] => Some c
  | e :: rest =>
      match step c e with
      | Some c' => run c' rest
      | None => None
      end
  end.

Definition reachable (c : Client) : Prop :=
  exists events, run init events = Some c.

(** The payload of the last poll that succeeded. *)
Fixpoint lastResolved (rs : list (AxiosResult LocationData))
  (before : option LocationData) : option LocationData :=
  match rs with
  | [] => before
  | Resolved data :: rest => lastResolved rest (Some data)
  | Rejected _ :: rest => lastResolved rest before
  end.

(** Number of pass requests whose promise is pending. *)
Fixpoint pendingPasses (l : list Request) : nat :=
  match l with
  | [] => 0
  | req :: rest => (if isPasses req then 1 else 0) + pendingPasses rest
  end.

Fixpoint pendingLocations (l : list Request) : nat :=
  match l with
  | [] => 0
  | req :: rest => (if isPasses req then 0 else 1) + pendingLocations rest
  end.

(** ** What [App] renders (lines 112-303) *)

Section Rendering.

(** The binary64 product [x * 100] of line 212; its rounding is left to
    the host. *)
Variable times100 : number -> number.

(** Sequencing of two JavaScript expressions. *)
Definition js_bind {A B} (m : js A) (k : A -> js B) : js B :=
  match m with
  | Return a => k a
  | Throw e => Throw e
  end.

(** [array.map(f)]: the callback runs on the elements in order, and an
    exception leaves the loop. *)
Fixpoint js_map {A B} (f : A -> js B) (l : list A) : js (list B) :=
  match l with
  | [] => Return []
  | x :: rest =>
      js_bind (f x) (fun y =>
      js_bind (js_map f rest) (fun ys => Return (y :: ys)))
  end.

(** [x > d] for a literal [d]: false on NaN. *)
Definition num_gt (x : number) (d : Q) : bool :=
  match x with
  | NaN => false
  | Fin q => negb (Qle_bool q d)
  end.

Inductive Badge : Type :=
| Green
| Yellow
| Red.

Definition badgeClassName (b : Badge) : string :=
  match b with
  | Green => "bg-green-900 text-green-200"
  | Yellow => "bg-yellow-900 text-yellow-200"
  | Red => "bg-red-900 text-red-200"
  end.

(** The binary64 values of the literals [0.7] and [0.4]: the first lies
    just below seven tenths, the second just above four tenths. *)
Definition literal_0_7 : Q := 3152519739159347 # 4503599627370496.

Definition literal_0_4 : Q := 3602879701896397 # 9007199254740992.

(** The nested conditional of lines 204-210. *)
Definition visibilityBadge (score : number) : Badge :=
  if num_gt score literal_0_7 then Green
  else if num_gt score literal_0_4 then Yellow
  else Red.

(** One entry of the pass list (lines 195-234). *)
Record PassRow : Type := mkPassRow {
  row_date : string;
  row_className : string;
  row_percent : number;
  row_rise : string;
  row_max : string;
  row_set : string;
  row_minutes : number
}.

Definition passRow (pass : Pass) : js PassRow :=
  js_bind (formatDate (start_time pass)) (fun date =>
  js_bind (formatTime (start_time pass)) (fun rise =>
  js_bind (formatTime (max_time pass)) (fun max =>
  js_bind (formatTime (end_time pass)) (fun set =>
  Return
    {| row_date := date;
       row_className := badgeClassName (visibilityBadge (visibility_score pass));
       row_percent := Math_round (times100 (visibility_score pass));
       row_rise := rise; row_max := max; row_set := set;
       row_minutes := durationMinutes pass |})))).

(** The red circle and its tooltip (lines 164-182); [format] is called
    here outside of any [try]. *)
Record SatelliteMarker : Type := mkSatelliteMarker {
  marker_lat : number;
  marker_lng : number;
  marker_name : string;
  marker_alt : number;
  marker_time : string
}.

Definition satelliteMarker (s : SatelliteLocation) : js SatelliteMarker :=
  js_bind (format (sat_timestamp s) "HH:mm:ss") (fun time =>
  Return
    {| marker_lat := sat_lat s; marker_lng := sat_lng s;
       marker_name := sat_name s; marker_alt := Math_round (sat_alt s);
       marker_time := time |}).

(** The panel of lines 192-241. *)
Inductive PassesPanel : Type :=
| NoPasses (message : string)
| PassRows (rows : list PassRow).

Definition passesPanel (l : list Pass) : js PassesPanel :=
  match l with
  | [] =>
      Return (NoPasses
        "No visible ISS passes in the next 24 hours for your location.")
  | _ :: _ => js_bind (js_map passRow l) (fun rows => Return (PassRows rows))
  end.

Inductive Page : Type :=
| LoadingPage (message : option string)
| MainPage (center : LatLng) (marker : option SatelliteMarker)
    (panel : PassesPanel).

(** [error && <p>...</p>]: nothing for [null] and for the empty string. *)
Definition loadingMessage (e : option string) : option string :=
  match e with
  | Some message => if String.eqb message "" then None else Some message
  | None => None
  end.

(** The body of [App] from line 112 on, with the exceptions it can
    raise. *)
Definition renderApp (v : ViewState) : js Page :=
  match userLocation v with
  | Some loc =>
      if loading v then Return (LoadingPage (loadingMessage (error v)))
      else
        js_bind
          (match satelliteLocation v with
           | Some s => js_bind (satelliteMarker s) (fun m => Return (Some m))
           | None => Return None
           end) (fun marker =>
        js_bind (passesPanel (passes v)) (fun panel =>
        Return (MainPage loc marker panel)))
  | None => Return (LoadingPage (loadingMessage (error v)))
  end.

(** ** What React makes of a callback

    [step] is the component's own code: what a callback does to the cells
    when it runs.  React adds two rules of its own.  A state update that
    is dispatched to a component which is no longer mounted is dropped.
    And when the render that follows a callback throws, no error boundary
    being installed, the whole tree is removed, which runs the cleanup of
    the effects as any unmount does. *)

Definition restoreView (v : ViewState) (c : Client) : Client :=
  {| view := v; lifecycle := lifecycle c; geoPending := geoPending c;
     polling := polling c; inflight := inflight c; console := console c |}.

Definition removeTree (c : Client) : Client :=
  pollerCleanup (setLifecycle Unmounted c).

Definition commit (before after : Client) : Client :=
  match lifecycle before with
  | Unmounted => restoreView (view before) after
  | _ =>
      match lifecycle after, renderApp (view after) with
      | Mounted, Throw _ => removeTree after
      | _, _ => after
      end
  end.

Definition react_step (c : Client) (e : Event) : option Client :=
  match step c e with
  | Some c' => Some (commit c c')
  | None => None
  end.

Fixpoint react_run (c : Client) (events : list Event) : option Client :=
  match events with
  | [] => Some c
  | e :: rest =>
      match react_step c e with
      | Some c' => react_run c' rest
      | None => None
      end
  end.

(** The states the running application can be in. *)
Definition live (c : Client) : Prop :=
  exists events, react_run init events = Some c.

(** A position payload whose timestamp is a date, as the backend
    promises. *)
Definition dated (data : LocationData) : bool :=
  match Date_parse (data_timestamp data) with
  | Some _ => true
  | None => false
  end.

(** The payload a transition delivers to [fetchSatelliteLocation]. *)
Definition arrival (e : Event) : option LocationData :=
  match e with
  | LocationResponse _ (Resolved data) => Some data
  | _ => None
  end.

Definition wellDated (e : Event) : bool :=
  match arrival e with
  | Some data => dated data
  | None => true
  end.

Definition datedPosition (s : option SatelliteLocation) : bool :=
  match s with
  | Some {| sat_timestamp := InvalidDate |} => false
  | _ => true
  end.

(** The payload of the position response that arrived last. *)
Fixpoint lastArrival (events : list Event) (before : option LocationData)
  : option LocationData :=
  match events with
  | [] => before
  | e :: rest =>
      lastArrival rest
        (match arrival e with Some data => Some data | None => before end)
  end.

(** Polls that do not overlap: every tick of the timer is followed by the
    response to its request, found at position [n] of the pending ones. *)
Fixpoint tickEvents (n : nat) (rs : list (AxiosResult LocationData))
  : list Event :=
  match rs with
  | [] => []
  | r :: rest => IntervalTick :: LocationResponse n r :: tickEvents n rest
  end.

(** [satelliteLocation] holds the payload [data]: its four values under
    the names of lines 83-86 and its timestamp as a Date. *)
Definition holds (data : LocationData) (s : option SatelliteLocation)
  : Prop :=
  exists ms,
    Date_parse (data_timestamp data) = Some ms /\
    s = Some {| sat_lat := data_lat data; sat_lng := data_lon data;
                sat_alt := data_alt data; sat_name := data_name data;
                sat_timestamp := ValidDate ms |}.

End Rendering.

(** The transitions that give the client its location. *)
Definition resolvesLocation (e : Event) : bool :=
  match e with
  | Mount geolocation => negb geolocation
  | GeoSuccess _ _ | GeoError _ => true
  | _ => false
  end.

Fixpoint resolutions (events : list Event) : nat :=
  match events with
  | [] => 0
  | e :: rest => (if resolvesLocation e then 1 else 0) + resolutions rest
  end.

(** What holds of the client in every state it can reach. *)
Record Inv (c : Client) : Prop := mkInv {
  inv_unresolved :
    userLocation (view c) = None ->
    loading (view c) = true /\ inflight c = [] /\ polling c = false;
  inv_created : lifecycle c = Created -> c = init;
  inv_geo :
    geoPending c = true ->
    userLocation (view c) = None /\ lifecycle c <> Created;
  inv_single : pendingPasses (inflight c) <= 1;
  inv_busy : 0 < pendingPasses (inflight c) -> loading (view c) = true;
  inv_idle :
    lifecycle c = Mounted -> userLocation (view c) <> None ->
    loading (view c) = true -> 0 < pendingPasses (inflight c);
  inv_polling :
    polling c = true <->
    lifecycle c = Mounted /\ userLocation (view c) <> None;
  inv_params :
    forall la lo, GetPasses la lo ∈ inflight c ->
    userLocation (view c) = Some {| lat := la; lng := lo |}
}.

(** What the client looks like right after geolocation failed with the
    message [message]: the fallback coordinate is stored, the message is
    set and printed on the loading screen, the pass fetch and the poller
    have started, and [loading] is still true; it turns false when that
    pass fetch settles, either way. *)
Definition degraded (message : string) (c : Client) : Prop :=
  userLocation (view c)
  = Some {| lat := Fin 40.7128; lng := Fin (-74.006) |} /\
  error (view c) = Some message /\ message <> "" /\
  loading (view c) = true /\
  render (view c) = LoadingScreen (Some message) /\
  polling c = true /\
  inflight c = [GetPasses (Fin 40.7128) (Fin (-74.006)); GetLocation "ISS"] /\
  forall r, exists c',
    step c (PassesResponse 0 r) = Some c' /\ loading (view c') = false.

(** ** Proof support *)

Ltac unfold_component :=
  unfold rerender, userLocationEffects, pollerEffect, passesEffect,
    pollerCleanup, geolocationEffect, onPosition, onPositionError,
    fetchPasses_resume, fetchPasses_then, fetchPasses_catch, fetchPasses,
    fetchSatelliteLocation_resume, fetchSatelliteLocation_then,
    fetchSatelliteLocation_catch, fetchSatelliteLocation,
    refreshButton, render,
    setUserLocation, setSatelliteLocation, setPasses, setLoading, setError,
    setView, console_error, axios_get, settle, getCurrentPosition,
    positionDelivered, setInterval, clearInterval, setLifecycle in *.

Ltac open_client c :=
  destruct c as [[ul sl ps ld er] lc gp pl inf cons]; cbn in *.

Ltac solve_params :=
  let la := fresh "la" in let lo := fresh "lo" in let H := fresh "H" in
  intros la lo H;
  repeat (rewrite ?elem_of_app, ?elem_of_cons, ?elem_of_nil in H);
  try (apply list_elem_of_delete_inv in H);
  intuition (simplify_eq; eauto).

(** A pending pass request can always be settled, either way. *)
Lemma step_PassesResponse c i la lo r :
  inflight c !! i = Some (GetPasses la lo) ->
  step c (PassesResponse i r) = Some (fetchPasses_resume r (settle i c)).
Proof. intros H. unfold step. by rewrite H. Qed.

Lemma step_PassesResponse_inv c i r c' :
  step c (PassesResponse i r) = Some c' ->
  c' = fetchPasses_resume r (settle i c) /\
  exists la lo, inflight c !! i = Some (GetPasses la lo).
Proof.
  unfold step. destruct (inflight c !! i) as [[la lo|]|]; try discriminate.
  intros [= <-]. eauto.
Qed.

Lemma step_LocationResponse c i id r :
  inflight c !! i = Some (GetLocation id) ->
  step c (LocationResponse i r)
  = Some (fetchSatelliteLocation_resume r (settle i c)).
Proof. intros H. unfold step. by rewrite H. Qed.

Lemma step_LocationResponse_inv c i r c' :
  step c (LocationResponse i r) = Some c' ->
  c' = fetchSatelliteLocation_resume r (settle i c) /\
  exists id, inflight c !! i = Some (GetLocation id).
Proof.
  unfold step. destruct (inflight c !! i) as [[|id]|]; try discriminate.
  intros [= <-]. eauto.
Qed.

Lemma step_IntervalTick c :
  polling c = true -> step c IntervalTick = Some (fetchSatelliteLocation c).
Proof. intros H. unfold step. by rewrite H. Qed.

Lemma lookup_snoc {A} (l : list A) (x : A) :
  (l ++ [x]) !! List.length l = Some x.
Proof. rewrite lookup_app_r by lia. by rewrite Nat.sub_diag. Qed.

Lemma delete_snoc {A} (l : list A) (x : A) :
  delete (List.length l) (l ++ [x]) = l.
Proof.
  induction l as [|y l IH]; [done|]. simpl. by f_equal.
Qed.

Lemma lastResolved_acc rs : forall before,
  lastResolved rs before
  = match lastResolved rs None with
    | Some data => Some data
    | None => before
    end.
Proof.
  induction rs as [|[data|err] rs IH]; intros before; cbn.
  - done.
  - rewrite (IH (Some data)). by destruct (lastResolved rs None).
  - apply IH.
Qed.

Lemma pendingPasses_app l1 l2 :
  pendingPasses (l1 ++ l2) = pendingPasses l1 + pendingPasses l2.
Proof. induction l1 as [|x l1 IH]; cbn; [done|]. rewrite IH. lia. Qed.

Lemma pendingLocations_app l1 l2 :
  pendingLocations (l1 ++ l2) = pendingLocations l1 + pendingLocations l2.
Proof. induction l1 as [|x l1 IH]; cbn; [done|]. rewrite IH. lia. Qed.

Lemma pendingPasses_delete l : forall i req,
  l !! i = Some req ->
  pendingPasses l
  = (if isPasses req then 1 else 0) + pendingPasses (delete i l).
Proof.
  induction l as [|x l IH]; intros [|i] req Hl; try discriminate.
  - cbn in Hl. by injection Hl as ->.
  - cbn in Hl. simpl. rewrite (IH i req Hl). lia.
Qed.

Lemma pendingLocations_delete l : forall i req,
  l !! i = Some req ->
  pendingLocations l
  = (if isPasses req then 0 else 1) + pendingLocations (delete i l).
Proof.
  induction l as [|x l IH]; intros [|i] req Hl; try discriminate.
  - cbn in Hl. by injection Hl as ->.
  - cbn in Hl. simpl. rewrite (IH i req Hl). lia.
Qed.

Lemma run_snoc events : forall c e,
  run c (events ++ [e])
  = match run c events with Some c' => step c' e | None => None end.
Proof.
  induction events as [|e0 events IH]; intros c e; cbn.
  - by destruct (step c e).
  - destruct (step c e0); [apply IH | done].
Qed.

Lemma run_app events1 : forall c events2,
  run c (events1 ++ events2)
  = match run c events1 with Some c' => run c' events2 | None => None end.
Proof.
  induction events1 as [|e0 events1 IH]; intros c events2; cbn; [done|].
  destruct (step c e0); [apply IH | done].
Qed.

Lemma reachable_init : reachable init.
Proof. by exists []. Qed.

Lemma reachable_step c e c' :
  reachable c -> step c e = Some c' -> reachable c'.
Proof.
  intros [events Hrun] Hstep. exists (events ++ [e]).
  by rewrite run_snoc, Hrun.
Qed.

Lemma reachable_run events : forall c c',
  reachable c -> run c events = Some c' -> reachable c'.
Proof.
  induction events as [|e events IH]; intros c c' Hc; cbn.
  - by intros [= <-].
  - destruct (step c e) as [c1|] eqn:Hstep; [|done].
    apply IH. by eapply reachable_step.
Qed.

(** Induction over the states the client can reach. *)
Lemma reachable_ind (P : Client -> Prop) :
  P init ->
  (forall c e c', reachable c -> P c -> step c e = Some c' -> P c') ->
  forall c, reachable c -> P c.
Proof.
  intros Hinit Hstep c [events Hrun]. revert c Hrun.
  induction events as [|e events IH] using rev_ind; intros c Hrun.
  - cbn in Hrun. by injection Hrun as <-.
  - rewrite run_snoc in Hrun.
    destruct (run init events) as [c0|] eqn:Hrun0; [|done].
    apply (Hstep c0 e c); [by exists events | by apply IH | done].
Qed.

Lemma Inv_init : Inv init.
Proof.
  split; cbn; try done; try lia.
  - split; [done|]. by intros [_ H].
  - intros la lo H. by apply elem_of_nil in H.
Qed.

Lemma Inv_step c e c' : Inv c -> step c e = Some c' -> Inv c'.
Proof.
  intros [H1 H2 H3 H4 H5 H6 H7 H8] Hstep.
  destruct e; unfold step in Hstep.
  - (* Mount *)
    destruct (lifecycle c) eqn:Hl; try discriminate.
    rewrite (H2 eq_refl) in Hstep. injection Hstep as <-.
    destruct geolocation; split; cbn; try done; try lia.
    all: try (split; [done|]; by intros [_ H]).
    all: solve_params.
  - (* GeoSuccess *)
    destruct (geoPending c) eqn:Hg; try discriminate.
    injection Hstep as <-.
    destruct (H3 eq_refl) as [Hu Hc]. destruct (H1 Hu) as (Hld & Hin & Hp).
    open_client c. subst.
    destruct lc; try done; split; cbn; try done; try lia.
    all: try (split; [done|]; by intros [? ?]).
    all: try solve_params.
  - (* GeoError *)
    destruct (geoPending c) eqn:Hg; try discriminate.
    injection Hstep as <-.
    destruct (H3 eq_refl) as [Hu Hc]. destruct (H1 Hu) as (Hld & Hin & Hp).
    open_client c. subst.
    destruct lc; try done; split; cbn; try done; try lia.
    all: try (split; [done|]; by intros [? ?]).
    all: try solve_params.
  - (* IntervalTick *)
    destruct (polling c) eqn:Hp; try discriminate.
    injection Hstep as <-.
    destruct (proj1 H7 eq_refl) as [Hl Hu].
    open_client c. subst.
    split; cbn; rewrite ?pendingPasses_app; cbn; rewrite ?Nat.add_0_r;
      try done.
    solve_params.
  - (* ClickRefresh *)
    destruct (refreshButton c) eqn:Hb; try discriminate.
    injection Hstep as <-.
    open_client c. unfold refreshButton, render in Hb. cbn in Hb.
    destruct lc; try discriminate. destruct ul as [loc|]; try discriminate.
    destruct ld; try discriminate.
    assert (pendingPasses inf = 0) as Hz.
    { destruct (pendingPasses inf); [done|]. discriminate H5. lia. }
    split; cbn; rewrite ?pendingPasses_app, ?Hz; cbn; try done; try lia.
    + intros la lo H. apply elem_of_app in H as [H|H].
      * by apply H8.
      * apply list_elem_of_singleton in H. destruct loc. by injection H as -> ->.
  - (* PassesResponse *)
    destruct (inflight c !! i) as [[la lo|]|] eqn:Hi; try discriminate.
    injection Hstep as <-.
    pose proof (pendingPasses_delete _ _ _ Hi) as Hd. cbn in Hd.
    assert (userLocation (view c) <> None) as Hu.
    { intros Hu. destruct (H1 Hu) as (_ & Hin & _). by rewrite Hin in Hi. }
    assert (lifecycle c <> Created) as Hc.
    { intros Hc. by rewrite (H2 Hc) in Hi. }
    open_client c.
    destruct r as [data|err]; split; cbn; try done; try lia.
    all: try solve_params.
  - (* LocationResponse *)
    destruct (inflight c !! i) as [[|id]|] eqn:Hi; try discriminate.
    injection Hstep as <-.
    pose proof (pendingPasses_delete _ _ _ Hi) as Hd. cbn in Hd.
    assert (userLocation (view c) <> None) as Hu.
    { intros Hu. destruct (H1 Hu) as (_ & Hin & _). by rewrite Hin in Hi. }
    assert (lifecycle c <> Created) as Hc.
    { intros Hc. by rewrite (H2 Hc) in Hi. }
    open_client c.
    destruct r as [data|err]; split; cbn; rewrite <- ?Hd; try done.
    all: try solve_params.
  - (* Unmount *)
    destruct (lifecycle c) eqn:Hl; try discriminate.
    injection Hstep as <-.
    open_client c. subst.
    split; cbn; try done.
    + intros Hu. destruct (H1 Hu) as (? & ? & ?). by repeat split.
    + intros Hg. destruct (H3 Hg) as [? ?]. by split.
    + split; [done|]. by intros [? ?].
Qed.

Lemma reachable_Inv c : reachable c -> Inv c.
Proof.
  revert c. apply reachable_ind; [apply Inv_init|].
  intros c e c' _ HI Hstep. by apply (Inv_step c e c').
Qed.

(** ** Display helpers *)

(** C7. A pass whose [end_time] parses to exactly 600 seconds (600000 ms)
    after its [start_time] is displayed with a duration of 10 minutes,
    whatever the start time is. *)
Theorem duration_of_600_seconds (pass : Pass) (T0 : Z)
  (Hstart : Date_parse (start_time pass) = Some T0)
  (Hend : Date_parse (end_time pass) = Some (T0 + 600000)%Z) :
  durationMinutes pass = Fin 10.
Proof.
  unfold durationMinutes, new_Date. rewrite Hstart, Hend. cbn [Date_sub].
  replace (T0 + 600000 - T0)%Z with 600000%Z by lia.
  reflexivity.
Qed.

(** C10. [formatTime] and [formatDate] never throw: on every string they
    return a string, which is what date-fns printed when it printed
    something, and the sentinel "Invalid time" / "Invalid date" when the
    string is not a date. *)
Theorem formatters_total (timeString : string) :
  (exists shown, formatTime timeString = Return shown) /\
  (exists shown, formatDate timeString = Return shown) /\
  (Date_parse timeString = None ->
   formatTime timeString = Return "Invalid time" /\
   formatDate timeString = Return "Invalid date") /\
  (forall ms shown, Date_parse timeString = Some ms ->
   (format_valid ms "h:mm a" = Return shown ->
    formatTime timeString = Return shown) /\
   (format_valid ms "MMM d" = Return shown ->
    formatDate timeString = Return shown)).
Proof.
  unfold formatTime, formatDate, new_Date, format, try_catch.
  destruct (Date_parse timeString) as [ms|].
  - split; [destruct (format_valid ms "h:mm a"); eauto|].
    split; [destruct (format_valid ms "MMM d"); eauto|].
    split; [done|].
    intros ms' shown [= <-]. split; by intros ->.
  - split; [eauto|]. split; [eauto|]. split; [done|]. done.
Qed.

(** ** The position poll *)

(** C8. The position poll touches [satelliteLocation] only.  Issuing the
    request changes no ViewState cell; when the response arrives, success
    writes the new position and logs nothing, failure logs one line and
    writes nothing; [passes], [error], [loading] and [userLocation] are
    the same before and after in both cases. *)
Theorem poll_frame c i r c'
  (Hstep : step c (LocationResponse i r) = Some c') :
  view (fetchSatelliteLocation c) = view c /\
  userLocation (view c') = userLocation (view c) /\
  passes (view c') = passes (view c) /\
  loading (view c') = loading (view c) /\
  error (view c') = error (view c) /\
  match r with
  | Resolved data =>
      satelliteLocation (view c') = Some (toSatelliteLocation data) /\
      console c' = console c
  | Rejected err =>
      satelliteLocation (view c') = satelliteLocation (view c) /\
      console c'
      = console c ++ [ErrLog "Error fetching satellite location:" err]
  end.
Proof.
  apply step_LocationResponse_inv in Hstep as [-> _].
  open_client c. by destruct r.
Qed.

(** ** The pass fetch *)

(** C9. Every invocation of [fetchPasses] ends with [loading] false: the
    call made without a location falls into the [catch] at once, the call
    made with a location raises [loading] and leaves one request pending,
    and whichever way a pending pass request settles, [loading] is false
    afterwards. *)
Theorem fetchPasses_ends_loading c :
  (userLocation (view c) = None ->
   loading (view (fetchPasses c)) = false /\
   inflight (fetchPasses c) = inflight c) /\
  (forall loc, userLocation (view c) = Some loc ->
   loading (view (fetchPasses c)) = true /\
   inflight (fetchPasses c) = inflight c ++ [GetPasses (lat loc) (lng loc)] /\
   forall r, exists c',
     step (fetchPasses c) (PassesResponse (List.length (inflight c)) r)
     = Some c' /\ loading (view c') = false) /\
  (forall i r c', step c (PassesResponse i r) = Some c' ->
   loading (view c') = false).
Proof.
  split; [|split].
  - intros Hu. open_client c. by subst.
  - intros loc Hu. split; [|split].
    + open_client c. by subst.
    + open_client c. by subst.
    + intros r. eexists. split.
      * eapply step_PassesResponse. unfold fetchPasses. cbn. rewrite Hu.
        cbn. apply lookup_snoc.
      * by destruct r.
  - intros i r c' Hstep.
    apply step_PassesResponse_inv in Hstep as [-> _]. by destruct r.
Qed.

Lemma lastResolved_all_resolved (datas : list LocationData) : forall before,
  lastResolved (Resolved <$> datas) before
  = match last datas with Some data => Some data | None => before end.
Proof.
  induction datas as [|d datas IH]; intros before; [done|].
  cbn [fmap list_fmap lastResolved]. rewrite IH.
  destruct datas as [|d' datas]; [done|].
  change (last (d :: d' :: datas)) with (last (d' :: datas)).
  destruct (last (d' :: datas)) eqn:Hlast; [done|].
  by apply last_None in Hlast.
Qed.

Lemma lastResolved_app rs1 : forall rs2 before,
  lastResolved (rs1 ++ rs2) before
  = lastResolved rs2 (lastResolved rs1 before).
Proof.
  induction rs1 as [|[d|e] rs1 IH]; intros rs2 before; cbn; [done|..];
    apply IH.
Qed.

Lemma step_keeps_position c e c' :
  step c e = Some c' ->
  is_Some (satelliteLocation (view c)) ->
  is_Some (satelliteLocation (view c')).
Proof.
  intros Hstep Hs. destruct e; unfold step in Hstep.
  - destruct (lifecycle c); try discriminate. injection Hstep as <-.
    open_client c. by destruct geolocation, ul.
  - destruct (geoPending c); try discriminate. injection Hstep as <-.
    open_client c. unfold rerender. cbn. by destruct lc.
  - destruct (geoPending c); try discriminate. injection Hstep as <-.
    open_client c. unfold rerender. cbn. by destruct lc.
  - destruct (polling c); try discriminate. by injection Hstep as <-.
  - destruct (refreshButton c); try discriminate. injection Hstep as <-.
    open_client c. by destruct ul.
  - destruct (inflight c !! i) as [[]|]; try discriminate.
    injection Hstep as <-. by destruct r.
  - destruct (inflight c !! i) as [[]|]; try discriminate.
    injection Hstep as <-. by destruct r.
  - destruct (lifecycle c); try discriminate. by injection Hstep as <-.
Qed.

(** C6. When the pending pass request is answered, the request is the one
    for the coordinate the client holds, [lat = C.lat] and [lon = C.lng],
    and [passes] becomes the answered array itself, whatever was stored
    before: [backend] stands for the array the backend computes for a pair
    of query parameters. *)
Theorem successful_pass_fetch (backend : number -> number -> list Pass)
  c i la lo
  (Hreach : reachable c)
  (Hpending : inflight c !! i = Some (GetPasses la lo)) :
  exists c' C,
    step c (PassesResponse i (Resolved (backend la lo))) = Some c' /\
    userLocation (view c) = Some C /\
    la = lat C /\ lo = lng C /\
    userLocation (view c') = Some C /\
    passes (view c') = backend (lat C) (lng C) /\
    inflight (fetchPasses c') = inflight c' ++ [GetPasses (lat C) (lng C)].
Proof.
  pose proof (step_PassesResponse c i la lo (Resolved (backend la lo))
                Hpending) as Hstep.
  pose proof (reachable_Inv c Hreach) as [H1 H2 H3 H4 H5 H6 H7 H8].
  assert (userLocation (view c) = Some {| lat := la; lng := lo |}) as Hu.
  { apply H8. by eapply list_elem_of_lookup_2. }
  eexists. exists {| lat := la; lng := lo |}. split; [exact Hstep|].
  open_client c. by subst.
Qed.

(** ** Location resolution and the loading flag *)

(** C3 (amended). Whichever way geolocation fails, without support in the
    browser or through the error callback with any of its three codes, the
    same transition stores the fallback coordinate {40.7128, -74.006},
    sets a non-empty message that the loading screen prints, and starts
    the pass fetch and the poller.  [loading] is not lowered by that
    transition: it is lowered when the pass fetch settles. *)
Theorem geolocation_failure :
  (exists c, step init (Mount false) = Some c /\
     degraded geolocationUnsupported c) /\
  (forall c err,
     reachable c -> lifecycle c = Mounted -> geoPending c = true ->
     exists c', step c (GeoError err) = Some c' /\
       degraded geolocationDenied c' /\
       console c' = console c ++ [GeoLog "Error getting location:" err]).
Proof.
  split.
  - eexists. split; [reflexivity|].
    repeat (split; [done|]). intros r. eexists. split; [reflexivity|].
    by destruct r.
  - intros c err Hr Hl Hg.
    pose proof (reachable_Inv c Hr) as [H1 H2 H3 H4 H5 H6 H7 H8].
    destruct (H3 Hg) as [Hu _]. destruct (H1 Hu) as (_ & Hin & _).
    unfold step. rewrite Hg. eexists. split; [reflexivity|].
    open_client c. subst. cbn.
    split; [|done].
    repeat (split; [done|]). intros r. eexists. split; [reflexivity|].
    by destruct r.
Qed.

(** C2 (amended). In every reachable state an unresolved location implies
    [loading]; and as long as the component is not unmounted, [loading] is
    true exactly when the location is unresolved or a pass request is
    pending.  So [loading] stays true after the location resolves until
    the first pass fetch settles, and every refresh raises it again. *)
Theorem loading_invariant c (Hreach : reachable c) :
  (userLocation (view c) = None -> loading (view c) = true) /\
  (0 < pendingPasses (inflight c) ->
   loading (view c) = true /\ userLocation (view c) <> None) /\
  (lifecycle c <> Unmounted ->
   (loading (view c) = true <->
    userLocation (view c) = None \/ 0 < pendingPasses (inflight c))).
Proof.
  pose proof (reachable_Inv c Hreach) as [H1 H2 H3 H4 H5 H6 H7 H8].
  split; [|split].
  - intros Hu. by destruct (H1 Hu).
  - intros Hp. split; [by apply H5|].
    intros Hu. destruct (H1 Hu) as (_ & Hin & _). rewrite Hin in Hp.
    cbn in Hp. lia.
  - intros Hl. split.
    + intros Hld. destruct (userLocation (view c)) eqn:Hu; [|by left].
      right. destruct (lifecycle c) eqn:Hlc; try done.
      * rewrite (H2 eq_refl) in Hu. done.
      * apply H6; try done.
    + intros [Hu|Hp]; [by destruct (H1 Hu) | by apply H5].
Qed.


(** ** The rendered page *)

Lemma Math_round_quotient (d : Z) :
  Math_round (num_div (Fin (inject_Z d)) 60000)
  = Fin (inject_Z ((d * 1 * 2 + 60000) / 120000)).
Proof. reflexivity. Qed.

(** X1. For a pass whose two timestamps parse, the number printed after
    "Duration:" is the whole number of minutes nearest to the difference
    [end - start], half minutes going up: with [m] printed,
    [60000 m - 30000 <= end - start < 60000 m + 30000] in milliseconds.
    Nothing is clamped, so a pass that ends before it starts prints a
    negative number or zero.  The difference is taken below 2^53 ms, the
    range in which binary64 holds it exactly and its quotient by 60000
    stays on its side of every half minute. *)
Theorem duration_nearest_minute (pass : Pass) (ts te : Z)
  (Hstart : Date_parse (start_time pass) = Some ts)
  (Hend : Date_parse (end_time pass) = Some te)
  (Hexact : (Z.abs (te - ts) < 2 ^ 53)%Z) :
  exists m : Z,
    durationMinutes pass = Fin (inject_Z m) /\
    (60000 * m - 30000 <= te - ts < 60000 * m + 30000)%Z.
Proof.
  unfold durationMinutes, new_Date. rewrite Hstart, Hend. cbn [Date_sub].
  rewrite Math_round_quotient. eexists. split; [reflexivity|].
  pose proof (Z.div_mod ((te - ts) * 1 * 2 + 60000) 120000 ltac:(lia)).
  pose proof (Z.mod_pos_bound ((te - ts) * 1 * 2 + 60000) 120000 ltac:(lia)).
  lia.
Qed.

(** X2. The duration is NaN exactly when the start or the end timestamp
    of the pass is not a date: the expression of lines 225-229 has no
    guard of its own. *)
Theorem duration_NaN_iff (pass : Pass) :
  durationMinutes pass = NaN <->
  Date_parse (start_time pass) = None \/ Date_parse (end_time pass) = None.
Proof.
  unfold durationMinutes, new_Date.
  destruct (Date_parse (end_time pass)) as [te|],
           (Date_parse (start_time pass)) as [ts|]; cbn [Date_sub].
  - rewrite Math_round_quotient. split; [discriminate|]. by intros [?|?].
  - split; [by left | done].
  - split; [by right | done].
  - split; [by left | done].
Qed.

Lemma formatTime_returns (timeString : string) :
  exists shown, formatTime timeString = Return shown /\
    (Date_parse timeString = None -> shown = "Invalid time").
Proof.
  unfold formatTime, new_Date, format, try_catch.
  destruct (Date_parse timeString) as [ms|]; [|eauto].
  destruct (format_valid ms "h:mm a"); eexists; by split.
Qed.

Lemma formatDate_returns (timeString : string) :
  exists shown, formatDate timeString = Return shown /\
    (Date_parse timeString = None -> shown = "Invalid date").
Proof.
  unfold formatDate, new_Date, format, try_catch.
  destruct (Date_parse timeString) as [ms|]; [|eauto].
  destruct (format_valid ms "MMM d"); eexists; by split.
Qed.

Lemma passRow_never_throws (times100 : number -> number) (pass : Pass) :
  exists row, passRow times100 pass = Return row.
Proof.
  unfold passRow.
  destruct (formatDate_returns (start_time pass)) as (date & -> & _).
  destruct (formatTime_returns (start_time pass)) as (rise & -> & _).
  destruct (formatTime_returns (max_time pass)) as (max & -> & _).
  destruct (formatTime_returns (end_time pass)) as (set & -> & _).
  cbn. eauto.
Qed.

(** X3. Rendering one pass never throws, whatever its timestamps are and
    whatever date-fns does: a start that is not a date prints
    "Invalid date" and "Invalid time", a peak or an end that is not a
    date prints "Invalid time", and the duration is the one of
    [durationMinutes]. *)
Theorem passRow_returns (times100 : number -> number) (pass : Pass) :
  exists row,
    passRow times100 pass = Return row /\
    row_minutes row = durationMinutes pass /\
    (Date_parse (start_time pass) = None ->
     row_date row = "Invalid date" /\ row_rise row = "Invalid time") /\
    (Date_parse (max_time pass) = None -> row_max row = "Invalid time") /\
    (Date_parse (end_time pass) = None -> row_set row = "Invalid time").
Proof.
  unfold passRow.
  destruct (formatDate_returns (start_time pass)) as (date & -> & Hdate).
  destruct (formatTime_returns (start_time pass)) as (rise & -> & Hrise).
  destruct (formatTime_returns (max_time pass)) as (max & -> & Hmax).
  destruct (formatTime_returns (end_time pass)) as (set & -> & Hset).
  cbn. eexists. split; [reflexivity|]. cbn. auto.
Qed.

Lemma js_map_passRow (times100 : number -> number) (l : list Pass) :
  exists rows,
    js_map (passRow times100) l = Return rows /\
    Forall2 (fun pass row => passRow times100 pass = Return row) l rows.
Proof.
  induction l as [|pass l (rows & IH & Hall)]; cbn.
  - exists []. by split.
  - destruct (passRow_never_throws times100 pass) as (row & Hrow).
    rewrite Hrow, IH. cbn. exists (row :: rows). split; [done|].
    by constructor.
Qed.

Lemma passesPanel_never_throws (times100 : number -> number) (l : list Pass) :
  exists panel, passesPanel times100 l = Return panel.
Proof.
  destruct l as [|pass l]; [by eexists|].
  destruct (js_map_passRow times100 (pass :: l)) as (rows & Hmap & _).
  unfold passesPanel. rewrite Hmap. cbn. eauto.
Qed.

(** X4. The pass panel never throws.  It shows the "No visible ISS
    passes" text exactly for the empty list, and otherwise one row per
    stored pass, in the stored order. *)
Theorem passesPanel_returns (times100 : number -> number) (l : list Pass) :
  exists panel,
    passesPanel times100 l = Return panel /\
    match panel with
    | NoPasses _ => l = []
    | PassRows rows =>
        l <> [] /\ List.length rows = List.length l /\
        forall i pass, l !! i = Some pass ->
          exists row, rows !! i = Some row /\
            passRow times100 pass = Return row
    end.
Proof.
  destruct l as [|pass l]; [by eexists|].
  destruct (js_map_passRow times100 (pass :: l)) as (rows & Hmap & Hall).
  unfold passesPanel. rewrite Hmap. cbn. eexists. split; [reflexivity|].
  split; [done|]. split; [symmetry; by apply (Forall2_length _ _ _ Hall)|].
  intros i p Hi.
  destruct (Forall2_lookup_l _ _ _ _ _ Hall Hi) as (row & ? & ?). eauto.
Qed.

(** X5. Rendering throws in one situation only: the main screen is due
    (a location is stored and [loading] is false), a satellite position is
    stored, and date-fns throws on its timestamp, which it does whenever
    that timestamp is an invalid date.  The loading screen and the pass
    list never make it throw. *)
Theorem renderApp_throws (times100 : number -> number) (v : ViewState)
  (e : JSError) :
  renderApp times100 v = Throw e <->
  exists loc s,
    userLocation v = Some loc /\ loading v = false /\
    satelliteLocation v = Some s /\
    format (sat_timestamp s) "HH:mm:ss" = Throw e.
Proof.
  unfold renderApp, satelliteMarker.
  destruct (passesPanel_never_throws times100 (passes v)) as (panel & Hpanel).
  destruct (userLocation v) as [loc|].
  - destruct (loading v).
    + split; [discriminate|]. by intros (? & ? & _ & ? & _).
    + destruct (satelliteLocation v) as [s|].
      * destruct (format (sat_timestamp s) "HH:mm:ss") as [time|e'] eqn:Hf;
          cbn; rewrite ?Hpanel; cbn.
        -- split; [discriminate|].
           intros (? & s' & _ & _ & [= <-] & Hs). by rewrite Hf in Hs.
        -- split.
           ++ intros [= <-]. by exists loc, s.
           ++ intros (? & s' & _ & _ & [= <-] & Hs). congruence.
      * cbn. rewrite Hpanel. cbn. split; [discriminate|].
        by intros (? & ? & _ & _ & ? & _).
  - split; [discriminate|]. by intros (? & ? & ? & _).
Qed.

(** X6. A position whose timestamp is not a date breaks the page: when
    its response arrives while the main screen is up, the position is
    stored as it is, and rendering throws the RangeError of date-fns. *)
Theorem undated_position_breaks_render (times100 : number -> number)
  c i id data loc
  (Hpending : inflight c !! i = Some (GetLocation id))
  (Hundated : Date_parse (data_timestamp data) = None)
  (Hlocated : userLocation (view c) = Some loc)
  (Hmain : loading (view c) = false) :
  exists c',
    step c (LocationResponse i (Resolved data)) = Some c' /\
    sat_timestamp <$> satelliteLocation (view c') = Some InvalidDate /\
    renderApp times100 (view c') = Throw (RangeError "Invalid time value").
Proof.
  eexists. split; [by eapply step_LocationResponse|].
  open_client c. subst. unfold renderApp, satelliteMarker, toSatelliteLocation,
    new_Date. cbn. rewrite Hundated. by cbn.
Qed.


(** ** More on the transitions *)

Lemma step_resolving c e c' :
  Inv c -> step c e = Some c' -> resolvesLocation e = true ->
  userLocation (view c) = None /\ userLocation (view c') <> None.
Proof.
  intros [H1 H2 H3 H4 H5 H6 H7 H8] Hstep He.
  destruct e; try discriminate; unfold step in Hstep.
  - destruct geolocation; [discriminate|].
    destruct (lifecycle c) eqn:Hl; try discriminate.
    injection Hstep as <-. rewrite (H2 eq_refl). by split.
  - destruct (geoPending c); try discriminate. injection Hstep as <-.
    destruct (H3 eq_refl) as [Hu _]. split; [done|].
    open_client c. unfold rerender. cbn. by destruct lc.
  - destruct (geoPending c); try discriminate. injection Hstep as <-.
    destruct (H3 eq_refl) as [Hu _]. split; [done|].
    open_client c. unfold rerender. cbn. by destruct lc.
Qed.

Lemma step_not_resolving c e c' :
  step c e = Some c' -> resolvesLocation e = false ->
  userLocation (view c') = userLocation (view c).
Proof.
  intros Hstep He. destruct e; try discriminate; unfold step in Hstep.
  - destruct geolocation; [|discriminate].
    destruct (lifecycle c); try discriminate. injection Hstep as <-.
    open_client c. by destruct ul.
  - destruct (polling c); try discriminate. by injection Hstep as <-.
  - destruct (refreshButton c); try discriminate. injection Hstep as <-.
    open_client c. by destruct ul.
  - destruct (inflight c !! i) as [[]|]; try discriminate.
    injection Hstep as <-. by destruct r.
  - destruct (inflight c !! i) as [[]|]; try discriminate.
    injection Hstep as <-. by destruct r.
  - destruct (lifecycle c); try discriminate. by injection Hstep as <-.
Qed.

Lemma step_keeps_location c e c' loc :
  Inv c -> step c e = Some c' ->
  userLocation (view c) = Some loc -> userLocation (view c') = Some loc.
Proof.
  intros HI Hstep Hu. destruct (resolvesLocation e) eqn:He.
  - destruct (step_resolving c e c' HI Hstep He) as [Hn _]. congruence.
  - by rewrite (step_not_resolving c e c' Hstep He).
Qed.

(** X7. The location is set once: in a reachable state that has a
    location, no sequence of transitions changes it, neither a late
    geolocation callback nor anything else. *)
Theorem location_is_final events : forall c c' loc,
  reachable c ->
  userLocation (view c) = Some loc ->
  run c events = Some c' ->
  userLocation (view c') = Some loc.
Proof.
  induction events as [|e events IH]; intros c c' loc Hr Hu Hrun.
  - cbn in Hrun. by injection Hrun as <-.
  - cbn in Hrun. destruct (step c e) as [c1|] eqn:Hstep; [|done].
    apply (IH c1 c' loc); [by eapply reachable_step| |done].
    eapply step_keeps_location; [by apply reachable_Inv|done..].
Qed.

Lemma step_keeps_error c e c' :
  step c e = Some c' ->
  is_Some (error (view c)) -> is_Some (error (view c')).
Proof.
  intros Hstep Hs. destruct e; unfold step in Hstep.
  - destruct (lifecycle c); try discriminate. injection Hstep as <-.
    open_client c. by destruct geolocation, ul.
  - destruct (geoPending c); try discriminate. injection Hstep as <-.
    open_client c. unfold rerender. cbn. by destruct lc.
  - destruct (geoPending c); try discriminate. injection Hstep as <-.
    open_client c. unfold rerender. cbn. by destruct lc.
  - destruct (polling c); try discriminate. by injection Hstep as <-.
  - destruct (refreshButton c); try discriminate. injection Hstep as <-.
    open_client c. by destruct ul.
  - destruct (inflight c !! i) as [[]|]; try discriminate.
    injection Hstep as <-. by destruct r.
  - destruct (inflight c !! i) as [[]|]; try discriminate.
    injection Hstep as <-. by destruct r.
  - destruct (lifecycle c); try discriminate. by injection Hstep as <-.
Qed.

(** X9. [error] is never cleared.  A pass fetch that succeeds leaves it
    as it was, and once it holds a message it holds one after every
    sequence of transitions; so the message of an old failure is what the
    loading screen prints during the next refresh. *)
Theorem error_is_never_cleared c :
  (forall i data c',
     step c (PassesResponse i (Resolved data)) = Some c' ->
     error (view c') = error (view c)) /\
  (forall events c',
     run c events = Some c' ->
     is_Some (error (view c)) -> is_Some (error (view c'))) /\
  (forall c',
     step c ClickRefresh = Some c' ->
     render (view c') = LoadingScreen (error (view c))).
Proof.
  split; [|split].
  - intros i data c' Hstep.
    by apply step_PassesResponse_inv in Hstep as [-> _].
  - intros events. revert c.
    induction events as [|e events IH]; intros c c' Hrun Hs.
    + cbn in Hrun. by injection Hrun as <-.
    + cbn in Hrun. destruct (step c e) as [c1|] eqn:Hstep; [|done].
      apply (IH c1 c' Hrun). by eapply step_keeps_error.
  - intros c' Hstep. unfold step in Hstep.
    destruct (refreshButton c) eqn:Hb; try discriminate.
    injection Hstep as <-. unfold refreshButton, render in Hb.
    open_client c. destruct lc; try discriminate.
    by destruct ul.
Qed.

Lemma replicate_snoc {A} (n : nat) (x : A) :
  replicate n x ++ [x] = x :: replicate n x.
Proof. induction n as [|n IH]; [done|]. cbn. by rewrite IH. Qed.

(** X11. The timer does not wait for responses: while it is armed, any
    number of ticks in a row go through, each adds one more pending
    request for the position, and nothing of ViewState changes. *)
Theorem ticks_pile_up (n : nat) : forall c,
  polling c = true ->
  exists c',
    run c (replicate n IntervalTick) = Some c' /\
    inflight c' = inflight c ++ replicate n (GetLocation "ISS") /\
    view c' = view c /\ polling c' = true.
Proof.
  induction n as [|n IH]; intros c Hp.
  - exists c. cbn. by rewrite app_nil_r.
  - cbn [replicate run]. rewrite step_IntervalTick by done.
    destruct (IH (fetchSatelliteLocation c) Hp) as (c' & Hrun & Hin & Hv & Hp').
    exists c'. split; [done|]. rewrite Hin, Hv. cbn.
    by rewrite <- app_assoc.
Qed.


(** X13. The badge follows the score: NaN and every score up to the
    literal 0.4, that literal included, are red; every score above the
    literal 0.7 is green, and that literal itself is yellow; and a higher
    score never gets a worse badge than a lower one. *)
Theorem visibilityBadge_monotone :
  visibilityBadge NaN = Red /\
  visibilityBadge (Fin literal_0_7) = Yellow /\
  (forall a, (a <= literal_0_4)%Q -> visibilityBadge (Fin a) = Red) /\
  (forall a, (literal_0_7 < a)%Q -> visibilityBadge (Fin a) = Green) /\
  (forall a b, (a <= b)%Q ->
     (visibilityBadge (Fin a) = Green -> visibilityBadge (Fin b) = Green) /\
     (visibilityBadge (Fin b) = Red -> visibilityBadge (Fin a) = Red)).
Proof.
  unfold visibilityBadge, num_gt.
  split; [done|]. split; [done|]. split; [|split].
  - intros a Ha.
    assert (Qle_bool a literal_0_4 = true) as -> by by apply Qle_bool_iff.
    assert (Qle_bool a literal_0_7 = true) as ->; [|done].
    apply Qle_bool_iff. eapply Qle_trans; [exact Ha|]. by vm_compute.
  - intros a Ha. destruct (Qle_bool a literal_0_7) eqn:Hb; [|done].
    apply Qle_bool_iff in Hb. by apply Qle_not_lt in Hb.
  - intros a b Hab. split.
    + destruct (Qle_bool a literal_0_7) eqn:Ha7; cbn.
      * by destruct (Qle_bool a literal_0_4).
      * intros _. destruct (Qle_bool b literal_0_7) eqn:Hb7; [|done].
        apply Qle_bool_iff in Hb7.
        assert (Qle_bool a literal_0_7 = true) as Hc; [|congruence].
        apply Qle_bool_iff. by eapply Qle_trans.
    + destruct (Qle_bool b literal_0_7) eqn:Hb7; cbn; [|done].
      destruct (Qle_bool b literal_0_4) eqn:Hb4; cbn; [|done]. intros _.
      apply Qle_bool_iff in Hb7, Hb4.
      assert (Qle_bool a literal_0_7 = true) as ->
        by (apply Qle_bool_iff; by eapply Qle_trans).
      assert (Qle_bool a literal_0_4 = true) as ->
        by (apply Qle_bool_iff; by eapply Qle_trans).
      done.
Qed.

Lemma step_unmounted_inflight c e c' :
  lifecycle c = Unmounted -> polling c = false ->
  step c e = Some c' ->
  lifecycle c' = Unmounted /\ polling c' = false /\
  List.length (inflight c') <= List.length (inflight c).
Proof.
  intros Hl Hp Hstep. destruct e; unfold step in Hstep.
  - by rewrite Hl in Hstep.
  - destruct (geoPending c); try discriminate. injection Hstep as <-.
    open_client c. by subst.
  - destruct (geoPending c); try discriminate. injection Hstep as <-.
    open_client c. by subst.
  - by rewrite Hp in Hstep.
  - unfold refreshButton in Hstep. by rewrite Hl in Hstep.
  - destruct (inflight c !! i) as [[la lo|]|] eqn:Hi; try discriminate.
    injection Hstep as <-.
    pose proof (length_delete (inflight c) i ltac:(eauto)) as Hd.
    destruct r; cbn; repeat split; try done; lia.
  - destruct (inflight c !! i) as [[|id]|] eqn:Hi; try discriminate.
    injection Hstep as <-.
    pose proof (length_delete (inflight c) i ltac:(eauto)) as Hd.
    destruct r; cbn; repeat split; try done; lia.
  - by rewrite Hl in Hstep.
Qed.

(** X14. An unmounted component sends nothing: after teardown no
    transition issues a request, so the number of pending requests only
    goes down, and the timer stays cleared. *)
Theorem no_request_after_teardown events : forall c c',
  reachable c -> lifecycle c = Unmounted ->
  run c events = Some c' ->
  lifecycle c' = Unmounted /\ polling c' = false /\
  List.length (inflight c') <= List.length (inflight c).
Proof.
  intros c c' Hr Hl.
  assert (polling c = false) as Hp.
  { pose proof (reachable_Inv c Hr) as [H1 H2 H3 H4 H5 H6 H7 H8].
    destruct (polling c); [|done].
    destruct (proj1 H7 eq_refl) as [Hm _]. congruence. }
  clear Hr. revert c Hl Hp.
  induction events as [|e events IH]; intros c Hl Hp Hrun.
  - cbn in Hrun. injection Hrun as <-. by repeat split.
  - cbn in Hrun. destruct (step c e) as [c1|] eqn:Hstep; [|done].
    destruct (step_unmounted_inflight c e c1 Hl Hp Hstep) as (Hl1 & Hp1 & Hle).
    destruct (IH c1 Hl1 Hp1 Hrun) as (? & ? & ?).
    repeat split; try done. lia.
Qed.


(** ** The running application *)

Lemma step_stays_unmounted c e c' :
  lifecycle c = Unmounted -> step c e = Some c' -> lifecycle c' = Unmounted.
Proof.
  intros Hl Hstep. destruct e; unfold step in Hstep.
  - by rewrite Hl in Hstep.
  - destruct (geoPending c); try discriminate. injection Hstep as <-.
    open_client c. by subst.
  - destruct (geoPending c); try discriminate. injection Hstep as <-.
    open_client c. by subst.
  - destruct (polling c); try discriminate. by injection Hstep as <-.
  - unfold refreshButton in Hstep. by rewrite Hl in Hstep.
  - destruct (inflight c !! i) as [[]|]; try discriminate.
    injection Hstep as <-. by destruct r.
  - destruct (inflight c !! i) as [[]|]; try discriminate.
    injection Hstep as <-. by destruct r.
  - by rewrite Hl in Hstep.
Qed.

Lemma react_step_inv (times100 : number -> number) c e c' :
  react_step times100 c e = Some c' ->
  exists after, step c e = Some after /\ c' = commit times100 c after.
Proof.
  unfold react_step. destruct (step c e) as [after|]; [|done].
  intros [= <-]. eauto.
Qed.

Lemma react_step_unmounted (times100 : number -> number) c e c' :
  lifecycle c = Unmounted ->
  react_step times100 c e = Some c' ->
  exists after, step c e = Some after /\ c' = restoreView (view c) after.
Proof.
  intros Hl Hstep.
  apply react_step_inv in Hstep as (after & Hstep & ->).
  exists after. split; [done|]. unfold commit. by rewrite Hl.
Qed.

Lemma react_step_intro (times100 : number -> number) c e after page :
  lifecycle c <> Unmounted ->
  step c e = Some after ->
  renderApp times100 (view after) = Return page ->
  react_step times100 c e = Some after.
Proof.
  intros Hl Hstep Hpage. unfold react_step, commit. rewrite Hstep, Hpage.
  destruct (lifecycle c); try done; by destruct (lifecycle after).
Qed.

Lemma react_run_unmounted (times100 : number -> number) events :
  forall c c',
  lifecycle c = Unmounted -> polling c = false ->
  react_run times100 c events = Some c' ->
  lifecycle c' = Unmounted /\ polling c' = false /\ view c' = view c.
Proof.
  induction events as [|e events IH]; intros c c' Hl Hp Hrun.
  - cbn in Hrun. by injection Hrun as <-.
  - cbn in Hrun.
    destruct (react_step times100 c e) as [c1|] eqn:Hstep; [|done].
    apply react_step_unmounted in Hstep as (after & Hstep & ->); [|done].
    destruct (step_unmounted_inflight c e after Hl Hp Hstep)
      as (Hl1 & Hp1 & _).
    destruct (IH (restoreView (view c) after) c') as (? & ? & ?); done.
Qed.

(** C1. Once the component is unmounted, [satelliteLocation] is never
    written again.  The timer is cleared with the unmount, so no tick can
    fire; a position request that was in flight at that moment can still
    be answered, with success or not, and its response is consumed, but
    the update it dispatches is dropped: after any sequence of
    transitions [satelliteLocation] is what it was at the unmount. *)
Theorem teardown_is_final (times100 : number -> number) c0
  (Hmounted : lifecycle c0 = Mounted) :
  exists c,
    react_step times100 c0 Unmount = Some c /\
    lifecycle c = Unmounted /\ polling c = false /\
    inflight c = inflight c0 /\
    satelliteLocation (view c) = satelliteLocation (view c0) /\
    react_step times100 c IntervalTick = None /\
    (forall i id r, inflight c !! i = Some (GetLocation id) ->
       exists c',
         react_step times100 c (LocationResponse i r) = Some c' /\
         inflight c' = delete i (inflight c) /\
         satelliteLocation (view c') = satelliteLocation (view c0)) /\
    (forall events c',
       react_run times100 c events = Some c' ->
       lifecycle c' = Unmounted /\ polling c' = false /\
       satelliteLocation (view c') = satelliteLocation (view c0)).
Proof.
  exists (removeTree c0).
  split.
  { unfold react_step, step, commit. rewrite Hmounted. done. }
  split; [done|]. split; [done|]. split; [done|]. split; [done|].
  split; [done|]. split.
  - intros i id r Hi. unfold react_step.
    rewrite (step_LocationResponse _ i id r Hi). eexists. split; [done|].
    by destruct r.
  - intros events c' Hrun.
    destruct (react_run_unmounted times100 events (removeTree c0) c')
      as (? & ? & Hv); try done.
    by rewrite Hv.
Qed.


Lemma renderApp_returns (times100 : number -> number) v :
  (forall ms, exists shown, format_valid ms "HH:mm:ss" = Return shown) ->
  datedPosition (satelliteLocation v) = true ->
  exists page, renderApp times100 v = Return page.
Proof.
  intros Hformat Hdated. unfold renderApp, satelliteMarker.
  destruct (passesPanel_never_throws times100 (passes v)) as (panel & Hpanel).
  destruct (userLocation v) as [loc|]; [|eauto].
  destruct (loading v); [eauto|].
  destruct (satelliteLocation v) as [[la lo al na [|ms]]|]; try done; cbn.
  - destruct (Hformat ms) as (shown & ->). cbn. rewrite Hpanel. cbn. eauto.
  - rewrite Hpanel. cbn. eauto.
Qed.

Lemma holds_toSatelliteLocation data :
  dated data = true -> holds data (Some (toSatelliteLocation data)).
Proof.
  unfold dated, holds, toSatelliteLocation, new_Date.
  destruct (Date_parse (data_timestamp data)) as [ms|]; [|done].
  intros _. by exists ms.
Qed.

Lemma holds_datedPosition data s : holds data s -> datedPosition s = true.
Proof. by intros (ms & _ & ->). Qed.

(** What a callback does to a mounted component whose timer is armed. *)
Lemma step_while_polling c e after :
  lifecycle c = Mounted -> polling c = true -> e <> Unmount ->
  step c e = Some after ->
  lifecycle after = Mounted /\ polling after = true /\
  satelliteLocation (view after)
  = match arrival e with
    | Some data => Some (toSatelliteLocation data)
    | None => satelliteLocation (view c)
    end.
Proof.
  intros Hl Hp He Hstep. destruct e; unfold step in Hstep; cbn [arrival].
  - by rewrite Hl in Hstep.
  - destruct (geoPending c); try discriminate. injection Hstep as <-.
    open_client c. by subst.
  - destruct (geoPending c); try discriminate. injection Hstep as <-.
    open_client c. by subst.
  - rewrite Hp in Hstep. by injection Hstep as <-.
  - destruct (refreshButton c); try discriminate. injection Hstep as <-.
    open_client c. by destruct ul.
  - destruct (inflight c !! i) as [[]|]; try discriminate.
    injection Hstep as <-. by destruct r.
  - destruct (inflight c !! i) as [[]|]; try discriminate.
    injection Hstep as <-. by destruct r.
  - done.
Qed.

Lemma react_step_while_polling (times100 : number -> number) c e c' :
  (forall ms, exists shown, format_valid ms "HH:mm:ss" = Return shown) ->
  lifecycle c = Mounted -> polling c = true ->
  datedPosition (satelliteLocation (view c)) = true ->
  wellDated e = true -> e <> Unmount ->
  react_step times100 c e = Some c' ->
  step c e = Some c' /\
  lifecycle c' = Mounted /\ polling c' = true /\
  datedPosition (satelliteLocation (view c')) = true /\
  match arrival e with
  | Some data => holds data (satelliteLocation (view c'))
  | None => satelliteLocation (view c') = satelliteLocation (view c)
  end.
Proof.
  intros Hformat Hl Hp Hd Hw He Hstep.
  apply react_step_inv in Hstep as (after & Hstep & ->).
  destruct (step_while_polling c e after Hl Hp He Hstep) as (Hl1 & Hp1 & Hs1).
  assert (match arrival e with
          | Some data => holds data (satelliteLocation (view after))
          | None => satelliteLocation (view after) = satelliteLocation (view c)
          end) as Harr.
  { unfold wellDated in Hw. rewrite Hs1. destruct (arrival e); [|done].
    by apply holds_toSatelliteLocation. }
  assert (datedPosition (satelliteLocation (view after)) = true) as Hd1.
  { destruct (arrival e); [by eapply holds_datedPosition | by rewrite Harr]. }
  destruct (renderApp_returns times100 (view after) Hformat Hd1)
    as (page & Hpage).
  assert (commit times100 c after = after) as ->.
  { unfold commit. by rewrite Hl, Hl1, Hpage. }
  done.
Qed.

Lemma lastArrival_acc events : forall before,
  lastArrival events before
  = match lastArrival events None with
    | Some data => Some data
    | None => before
    end.
Proof.
  induction events as [|e events IH]; intros before; cbn; [done|].
  destruct (arrival e) as [data|]; [|apply IH].
  rewrite (IH (Some data)). by destruct (lastArrival events None).
Qed.

Lemma lastArrival_tickEvents n rs : forall before,
  lastArrival (tickEvents n rs) before = lastResolved rs before.
Proof.
  induction rs as [|[data|err] rs IH]; intros before; cbn; [done|..];
    apply IH.
Qed.

Lemma react_run_while_polling (times100 : number -> number) events :
  (forall ms, exists shown, format_valid ms "HH:mm:ss" = Return shown) ->
  forall c c',
  lifecycle c = Mounted -> polling c = true ->
  datedPosition (satelliteLocation (view c)) = true ->
  Forall (fun e => wellDated e = true) events ->
  Unmount ∉ events ->
  react_run times100 c events = Some c' ->
  lifecycle c' = Mounted /\ polling c' = true /\
  match lastArrival events None with
  | Some data => holds data (satelliteLocation (view c'))
  | None => satelliteLocation (view c') = satelliteLocation (view c)
  end.
Proof.
  intros Hformat.
  induction events as [|e events IH]; intros c c' Hl Hp Hd Hw Hne Hrun.
  - cbn in Hrun. by injection Hrun as <-.
  - cbn in Hrun.
    destruct (react_step times100 c e) as [c1|] eqn:Hstep; [|done].
    apply Forall_cons in Hw as [Hw1 Hw2].
    apply not_elem_of_cons in Hne as [Hne1 Hne2].
    destruct (react_step_while_polling times100 c e c1 Hformat Hl Hp Hd Hw1
                ltac:(congruence) Hstep) as (_ & Hl1 & Hp1 & Hd1 & Harr).
    destruct (IH c1 c' Hl1 Hp1 Hd1 Hw2 Hne2 Hrun) as (Hl' & Hp' & Hlast).
    split; [done|]. split; [done|]. cbn [lastArrival].
    destruct (arrival e) as [data|].
    + rewrite (lastArrival_acc events (Some data)).
      destruct (lastArrival events None); [done|]. by rewrite Hlast.
    + destruct (lastArrival events None); [done|]. by rewrite Hlast.
Qed.

Lemma react_run_tickEvents (times100 : number -> number) rs :
  (forall ms, exists shown, format_valid ms "HH:mm:ss" = Return shown) ->
  forall c,
  lifecycle c = Mounted -> polling c = true ->
  datedPosition (satelliteLocation (view c)) = true ->
  Forall (fun e => wellDated e = true)
    (tickEvents (List.length (inflight c)) rs) ->
  exists c',
    react_run times100 c (tickEvents (List.length (inflight c)) rs) = Some c'.
Proof.
  intros Hformat.
  induction rs as [|r rs IH]; intros c Hl Hp Hd Hw; [by exists c|].
  cbn [tickEvents] in *.
  apply Forall_cons in Hw as [_ Hw]. apply Forall_cons in Hw as [Hw1 Hw2].
  destruct (renderApp_returns times100 (view c) Hformat Hd) as (page & Hpage).
  cbn [react_run].
  rewrite (react_step_intro times100 c IntervalTick
             (fetchSatelliteLocation c) page) by (by rewrite ?Hl; try apply step_IntervalTick).
  set (c1 := fetchSatelliteLocation c).
  assert (step c1 (LocationResponse (List.length (inflight c)) r)
          = Some (fetchSatelliteLocation_resume r
                    (settle (List.length (inflight c)) c1))) as Hstep.
  { apply step_LocationResponse with (id := "ISS"). apply lookup_snoc. }
  destruct (react_step times100 c1 (LocationResponse (List.length (inflight c)) r))
    as [c2|] eqn:Hreact.
  - destruct (react_step_while_polling times100 c1 _ c2 Hformat Hl Hp Hd Hw1
                ltac:(done) Hreact) as (Hstep2 & Hl2 & Hp2 & Hd2 & _).
    assert (inflight c2 = inflight c) as Hin.
    { rewrite Hstep in Hstep2. injection Hstep2 as <-.
      destruct r; cbn; apply delete_snoc. }
    rewrite <- Hin in Hw2 |- *. by apply IH.
  - unfold react_step in Hreact. by rewrite Hstep in Hreact.
Qed.

Lemma react_step_keeps_position (times100 : number -> number) c e c' :
  react_step times100 c e = Some c' ->
  is_Some (satelliteLocation (view c)) ->
  is_Some (satelliteLocation (view c')).
Proof.
  intros Hstep Hs.
  apply react_step_inv in Hstep as (after & Hstep & ->).
  pose proof (step_keeps_position c e after Hstep Hs) as Hafter.
  unfold commit. destruct (lifecycle c); try done;
    destruct (lifecycle after); try done;
    by destruct (renderApp times100 (view after)).
Qed.

(** C4 (amended). Take the mounted component with its timer armed, and
    let every position payload that arrives carry a timestamp that is a
    date.  Then, as long as the component is not unmounted, after any
    sequence of transitions the timer is still armed and the next tick can
    fire, and [satelliteLocation] holds the payload of the position
    response that arrived last: its lat, lon, alt and name and its
    timestamp as a Date; a rejected request leaves the stored value in
    place.  When the polls do not overlap, each response arriving before
    the next tick, every such run goes through and the response that
    arrived last is that of the last tick that succeeded.  No transition
    takes [satelliteLocation] from a position back to [null]. *)
Theorem poller_keeps_last_arrival (times100 : number -> number) c
  (Hformat : forall ms, exists shown,
     format_valid ms "HH:mm:ss" = Return shown)
  (Hmounted : lifecycle c = Mounted)
  (Hpolling : polling c = true)
  (Hstored : datedPosition (satelliteLocation (view c)) = true) :
  (forall events c',
     Forall (fun e => wellDated e = true) events ->
     Unmount ∉ events ->
     react_run times100 c events = Some c' ->
     lifecycle c' = Mounted /\ polling c' = true /\
     is_Some (react_step times100 c' IntervalTick) /\
     match lastArrival events None with
     | Some data => holds data (satelliteLocation (view c'))
     | None => satelliteLocation (view c') = satelliteLocation (view c)
     end) /\
  (forall rs,
     Forall (fun e => wellDated e = true)
       (tickEvents (List.length (inflight c)) rs) ->
     exists c',
       react_run times100 c (tickEvents (List.length (inflight c)) rs)
       = Some c' /\
       polling c' = true /\
       match lastResolved rs None with
       | Some data => holds data (satelliteLocation (view c'))
       | None => satelliteLocation (view c') = satelliteLocation (view c)
       end) /\
  (forall c0 e c1,
     react_step times100 c0 e = Some c1 ->
     is_Some (satelliteLocation (view c0)) ->
     is_Some (satelliteLocation (view c1))).
Proof.
  assert (forall events c',
     Forall (fun e => wellDated e = true) events ->
     Unmount ∉ events ->
     react_run times100 c events = Some c' ->
     lifecycle c' = Mounted /\ polling c' = true /\
     is_Some (react_step times100 c' IntervalTick) /\
     match lastArrival events None with
     | Some data => holds data (satelliteLocation (view c'))
     | None => satelliteLocation (view c') = satelliteLocation (view c)
     end) as Hany.
  { intros events c' Hw Hne Hrun.
    destruct (react_run_while_polling times100 events Hformat c c'
                Hmounted Hpolling Hstored Hw Hne Hrun) as (Hl & Hp & Hlast).
    split; [done|]. split; [done|]. split; [|done].
    assert (datedPosition (satelliteLocation (view c')) = true) as Hd.
    { destruct (lastArrival events None);
        [by eapply holds_datedPosition | by rewrite Hlast]. }
    destruct (renderApp_returns times100 (view c') Hformat Hd) as (page & Hpage).
    rewrite (react_step_intro times100 c' IntervalTick
               (fetchSatelliteLocation c') page); try done.
    - by rewrite Hl.
    - by apply step_IntervalTick. }
  split; [exact Hany|]. split.
  - intros rs Hw.
    destruct (react_run_tickEvents times100 rs Hformat c Hmounted Hpolling
                Hstored Hw) as (c' & Hrun).
    exists c'. split; [done|].
    assert (Unmount ∉ tickEvents (List.length (inflight c)) rs) as Hne.
    { clear. induction rs as [|r rs IH]; cbn; [by apply not_elem_of_nil|].
      apply not_elem_of_cons. split; [done|].
      apply not_elem_of_cons. by split. }
    destruct (Hany _ c' Hw Hne Hrun) as (_ & Hp & _ & Hlast).
    split; [done|]. by rewrite lastArrival_tickEvents in Hlast.
  - apply react_step_keeps_position.
Qed.


(** ** The pass fetch on a body that is not JSON *)

(** The cells agree with the component on the answers it is typed for. *)
Lemma fetchPasses_settled_agrees i r c :
  fetchCells (fetchPasses_resume r (settle i c))
  = fetchPasses_settled r (fetchCells c).
Proof. by destruct r. Qed.

(** C5 at the failing input. A response whose body is not JSON does not
    reject the promise: axios resolves it with the body as a string, so
    [fetchPasses] goes down its success path.  [passes] is overwritten
    with that string, whatever was stored before, [loading] is lowered,
    and neither [setError] nor [console.error] runs. *)
Theorem malformed_body_is_stored {A} (JSON_parse : string -> option A)
  (body : string) (s : FetchCells (ResponseData A))
  (Hmalformed : JSON_parse body = None) :
  cell_passes
    (fetchPasses_settled (Resolved (axios_data JSON_parse body)) s)
  = Unparsed body /\
  cell_error
    (fetchPasses_settled (Resolved (axios_data JSON_parse body)) s)
  = cell_error s /\
  cell_loading
    (fetchPasses_settled (Resolved (axios_data JSON_parse body)) s)
  = false /\
  cell_console
    (fetchPasses_settled (Resolved (axios_data JSON_parse body)) s)
  = cell_console s.
Proof. unfold axios_data. rewrite Hmalformed. by cbn. Qed.

(** ** Invariants of the running application *)

Lemma react_run_snoc (times100 : number -> number) events : forall c e,
  react_run times100 c (events ++ [e])
  = match react_run times100 c events with
    | Some c' => react_step times100 c' e
    | None => None
    end.
Proof.
  induction events as [|e0 events IH]; intros c e; cbn.
  - by destruct (react_step times100 c e).
  - destruct (react_step times100 c e0); [apply IH | done].
Qed.

Lemma live_step (times100 : number -> number) c e c' :
  live times100 c -> react_step times100 c e = Some c' -> live times100 c'.
Proof.
  intros [events Hrun] Hstep. exists (events ++ [e]).
  by rewrite react_run_snoc, Hrun.
Qed.

Lemma live_ind (times100 : number -> number) (P : Client -> Prop) :
  P init ->
  (forall c e c',
     live times100 c -> P c -> react_step times100 c e = Some c' -> P c') ->
  forall c, live times100 c -> P c.
Proof.
  intros Hinit Hstep c [events Hrun]. revert c Hrun.
  induction events as [|e events IH] using rev_ind; intros c Hrun.
  - cbn in Hrun. by injection Hrun as <-.
  - rewrite react_run_snoc in Hrun.
    destruct (react_run times100 init events) as [c0|] eqn:Hrun0; [|done].
    apply (Hstep c0 e c); [by exists events | by apply IH | done].
Qed.

Lemma pendingPasses_delete_le l : forall i,
  pendingPasses (delete i l) <= pendingPasses l.
Proof.
  induction l as [|req l IH]; intros [|i]; simpl; try lia.
  specialize (IH i). lia.
Qed.

(** What a callback leaves of the browser's side when the component is
    unmounted. *)
Lemma step_unmounted_shape c e after :
  lifecycle c = Unmounted -> polling c = false ->
  step c e = Some after ->
  lifecycle after = Unmounted /\ polling after = false /\
  (geoPending after = true -> geoPending c = true) /\
  (inflight after = inflight c \/
   exists i, inflight after = delete i (inflight c)).
Proof.
  intros Hl Hp Hstep. destruct e; unfold step in Hstep.
  - by rewrite Hl in Hstep.
  - destruct (geoPending c); try discriminate. injection Hstep as <-.
    open_client c. subst. cbn. auto.
  - destruct (geoPending c); try discriminate. injection Hstep as <-.
    open_client c. subst. cbn. auto.
  - by rewrite Hp in Hstep.
  - unfold refreshButton in Hstep. by rewrite Hl in Hstep.
  - destruct (inflight c !! i) as [[]|]; try discriminate.
    injection Hstep as <-. destruct r; cbn; eauto 10.
  - destruct (inflight c !! i) as [[]|]; try discriminate.
    injection Hstep as <-. destruct r; cbn; eauto 10.
  - by rewrite Hl in Hstep.
Qed.

Lemma Inv_removeTree c : Inv c -> lifecycle c = Mounted -> Inv (removeTree c).
Proof.
  intros HI Hl. apply (Inv_step c Unmount); [done|].
  unfold step. by rewrite Hl.
Qed.

Lemma Inv_react_step (times100 : number -> number) c e c' :
  Inv c -> react_step times100 c e = Some c' -> Inv c'.
Proof.
  intros HI Hstep.
  apply react_step_inv in Hstep as (after & Hstep & ->).
  pose proof (Inv_step c e after HI Hstep) as HI1.
  unfold commit. destruct (lifecycle c) eqn:Hl.
  - destruct (lifecycle after) eqn:Hl1; try done.
    destruct (renderApp times100 (view after)); [done|].
    by apply Inv_removeTree.
  - destruct (lifecycle after) eqn:Hl1; try done.
    destruct (renderApp times100 (view after)); [done|].
    by apply Inv_removeTree.
  - destruct HI as [H1 H2 H3 H4 H5 H6 H7 H8].
    assert (polling c = false) as Hp.
    { destruct (polling c); [|done].
      destruct (proj1 H7 eq_refl) as [Hm _]. congruence. }
    destruct (step_unmounted_shape c e after Hl Hp Hstep)
      as (Hl1 & Hp1 & Hg & Hin).
    assert (pendingPasses (inflight after) <= pendingPasses (inflight c))
      as Hle.
    { destruct Hin as [->|[i ->]]; [done|apply pendingPasses_delete_le]. }
    assert (forall req, req ∈ inflight after -> req ∈ inflight c) as Hsub.
    { intros req. destruct Hin as [->|[i ->]]; [done|].
      apply list_elem_of_delete_inv. }
    split; cbn.
    + intros Hu. destruct (H1 Hu) as (? & Hnil & ?).
      split; [done|]. split; [|done].
      destruct Hin as [->|[i ->]]; [done|]. by rewrite Hnil.
    + by rewrite Hl1.
    + intros Hg1. destruct (H3 (Hg Hg1)) as [? _]. split; [done|].
      by rewrite Hl1.
    + lia.
    + intros Hpos. apply H5. lia.
    + by rewrite Hl1.
    + rewrite Hp1, Hl1. split; [done|]. by intros [? _].
    + intros la lo Hin'. apply H8. by apply Hsub.
Qed.

Lemma live_Inv (times100 : number -> number) c : live times100 c -> Inv c.
Proof.
  revert c. apply (live_ind times100 Inv); [apply Inv_init|].
  intros c e c' _ HI Hstep. by eapply Inv_react_step.
Qed.

(** A mounted component of the running application has rendered. *)
Lemma live_renders (times100 : number -> number) c :
  live times100 c -> lifecycle c = Mounted ->
  exists page, renderApp times100 (view c) = Return page.
Proof.
  revert c.
  apply (live_ind times100
           (fun c => lifecycle c = Mounted ->
                     exists page, renderApp times100 (view c) = Return page));
    [done|].
  intros c e c' _ _ Hstep.
  apply react_step_inv in Hstep as (after & Hstep & ->).
  unfold commit. destruct (lifecycle c) eqn:Hl.
  - destruct (lifecycle after) eqn:Hl1; try (by rewrite Hl1).
    destruct (renderApp times100 (view after)) eqn:Hr; [eauto|done].
  - destruct (lifecycle after) eqn:Hl1; try (by rewrite Hl1).
    destruct (renderApp times100 (view after)) eqn:Hr; [eauto|done].
  - cbn. by rewrite (step_stays_unmounted c e after Hl Hstep).
Qed.

(** X8. In the running application at most one pass request is pending
    at any time.  The "Refresh Passes" button is on screen exactly when
    the component is mounted, has its location and has no pass request
    pending, and then the page it belongs to has rendered; so a refresh
    cannot be started while another one is under way. *)
Theorem one_pass_fetch_at_a_time (times100 : number -> number) c
  (Hlive : live times100 c) :
  pendingPasses (inflight c) <= 1 /\
  (refreshButton c = true <->
   lifecycle c = Mounted /\ userLocation (view c) <> None /\
   pendingPasses (inflight c) = 0) /\
  (refreshButton c = true ->
   exists loc marker panel,
     renderApp times100 (view c) = Return (MainPage loc marker panel)).
Proof.
  pose proof (live_Inv times100 c Hlive) as [H1 H2 H3 H4 H5 H6 H7 H8].
  split; [done|]. split.
  - unfold refreshButton, render.
    destruct (lifecycle c) eqn:Hl.
    + split; [discriminate|]. by intros [? _].
    + destruct (userLocation (view c)) as [loc|] eqn:Hu.
      * destruct (loading (view c)) eqn:Hld.
        -- split; [discriminate|]. intros (_ & _ & Hz).
           specialize (H6 eq_refl ltac:(done) eq_refl). lia.
        -- split; [|done]. intros _. split; [done|]. split; [done|].
           destruct (pendingPasses (inflight c)); [done|].
           discriminate H5. lia.
      * split; [discriminate|]. by intros (_ & ? & _).
    + split; [discriminate|]. by intros [? _].
  - intros Hb. unfold refreshButton, render in Hb.
    destruct (lifecycle c) eqn:Hl; try discriminate.
    destruct (live_renders times100 c Hlive Hl) as (page & Hpage).
    revert Hpage. unfold renderApp.
    destruct (userLocation (view c)) as [loc|]; [|discriminate].
    destruct (loading (view c)); [discriminate|].
    destruct (match satelliteLocation (view c) with
              | Some s => js_bind (satelliteMarker s) (fun m => Return (Some m))
              | None => Return None
              end) as [marker|]; cbn; [|discriminate].
    destruct (passesPanel times100 (passes (view c))) as [panel|]; cbn;
      [|discriminate].
    eauto.
Qed.


Lemma commit_browser_side (times100 : number -> number) c after :
  inflight (commit times100 c after) = inflight after /\
  geoPending (commit times100 c after) = geoPending after /\
  console (commit times100 c after) = console after /\
  (lifecycle after <> Created ->
   lifecycle (commit times100 c after) <> Created) /\
  (view (commit times100 c after) = view after \/
   lifecycle c = Unmounted /\ view (commit times100 c after) = view c).
Proof.
  unfold commit.
  destruct (lifecycle c) eqn:Hl; [| |by cbn; auto 10];
    (destruct (lifecycle after) eqn:Hl1;
     [|destruct (renderApp times100 (view after))|]; cbn;
     repeat split; auto; congruence).
Qed.

Lemma react_step_not_resolving (times100 : number -> number) c e c' :
  react_step times100 c e = Some c' -> resolvesLocation e = false ->
  userLocation (view c') = userLocation (view c).
Proof.
  intros Hstep He.
  apply react_step_inv in Hstep as (after & Hstep & ->).
  pose proof (step_not_resolving c e after Hstep He) as Hu.
  destruct (commit_browser_side times100 c after)
    as (_ & _ & _ & _ & [->|[_ ->]]); done.
Qed.

Lemma step_resolving_once c e after :
  Inv c ->
  step c e = Some after ->
  (resolvesLocation e = true ->
   (lifecycle c = Created \/ geoPending c = true) /\
   lifecycle after <> Created /\ geoPending after = false) /\
  (lifecycle c <> Created -> geoPending c = false ->
   lifecycle after <> Created /\ geoPending after = false).
Proof.
  intros HI Hstep. destruct e; unfold step in Hstep; cbn [resolvesLocation].
  - destruct (lifecycle c) eqn:Hl; try discriminate. injection Hstep as <-.
    split; [|done]. intros Hg. destruct geolocation; [done|].
    rewrite (inv_created c HI Hl). cbn. auto.
  - destruct (geoPending c) eqn:Hg; try discriminate. injection Hstep as <-.
    split; [|done]. intros _. split; [by right|].
    destruct (inv_geo c HI Hg) as [_ Hnc].
    open_client c. subst. unfold rerender. cbn.
    destruct lc; cbn; auto.
  - destruct (geoPending c) eqn:Hg; try discriminate. injection Hstep as <-.
    split; [|done]. intros _. split; [by right|].
    destruct (inv_geo c HI Hg) as [_ Hnc].
    open_client c. subst. unfold rerender. cbn.
    destruct lc; cbn; auto.
  - destruct (polling c); try discriminate. injection Hstep as <-.
    split; [done|]. by cbn.
  - destruct (refreshButton c); try discriminate. injection Hstep as <-.
    split; [done|]. open_client c. by destruct ul.
  - destruct (inflight c !! i) as [[]|]; try discriminate.
    injection Hstep as <-. split; [done|]. by destruct r.
  - destruct (inflight c !! i) as [[]|]; try discriminate.
    injection Hstep as <-. split; [done|]. by destruct r.
  - destruct (lifecycle c); try discriminate. injection Hstep as <-.
    split; [done|]. by cbn.
Qed.

Lemma resolutions_react (times100 : number -> number) events : forall c c',
  Inv c ->
  react_run times100 c events = Some c' ->
  (lifecycle c <> Created -> geoPending c = false ->
   resolutions events = 0) /\
  resolutions events <= 1 /\
  (resolutions events = 0 ->
   userLocation (view c') = userLocation (view c)).
Proof.
  induction events as [|e events IH]; intros c c' HI Hrun.
  - cbn in Hrun. injection Hrun as <-. cbn. split; [done|]. split; [lia|done].
  - cbn in Hrun.
    destruct (react_step times100 c e) as [c1|] eqn:Hstep; [|done].
    pose proof (Inv_react_step times100 c e c1 HI Hstep) as HI1.
    destruct (IH c1 c' HI1 Hrun) as (Hspent & Hle & Hsame).
    pose proof Hstep as Hstep'.
    apply react_step_inv in Hstep' as (after & Hafter & ->).
    destruct (step_resolving_once c e after HI Hafter) as [Hres Hkeep].
    destruct (commit_browser_side times100 c after)
      as (_ & Hg & _ & Hl & _).
    cbn [resolutions]. destruct (resolvesLocation e) eqn:He.
    + destruct (Hres eq_refl) as (Hfresh & Hl1 & Hg1).
      rewrite Hspent; [|by apply Hl|by rewrite Hg].
      split; [|split; [lia|lia]].
      intros Hnc Hgp. destruct Hfresh; congruence.
    + split; [|split; [lia|]].
      * intros Hnc Hgp. destruct (Hkeep Hnc Hgp) as [Hl1 Hg1].
        rewrite Hspent; [done|by apply Hl|by rewrite Hg].
      * intros Hz. rewrite Hsame by lia.
        by eapply react_step_not_resolving.
Qed.

(** X10. In every run of the application from its initial state the
    location is handed over at most once: by the mount without geolocation
    support, or by one of the two geolocation callbacks, never by two of
    them.  When none of them ran, the location is still unresolved at the
    end; so a stored location always comes from exactly one of them. *)
Theorem location_resolves_once (times100 : number -> number) events c
  (Hrun : react_run times100 init events = Some c) :
  resolutions events <= 1 /\
  (resolutions events = 0 -> userLocation (view c) = None) /\
  (userLocation (view c) <> None -> resolutions events = 1).
Proof.
  destruct (resolutions_react times100 events init c Inv_init Hrun)
    as (_ & Hle & Hsame).
  split; [done|]. split; [exact Hsame|].
  intros Hu. destruct (resolutions events) as [|n] eqn:Hn; [|lia].
  by destruct Hu; apply Hsame.
Qed.

Lemma step_no_refetch c e c1 :
  Inv c ->
  userLocation (view c) <> None ->
  pendingPasses (inflight c) = 0 ->
  e <> ClickRefresh ->
  step c e = Some c1 ->
  userLocation (view c1) <> None /\
  pendingPasses (inflight c1) = 0 /\
  passes (view c1) = passes (view c).
Proof.
  intros [H1 H2 H3 H4 H5 H6 H7 H8] Hu Hz Hne Hstep.
  destruct e; unfold step in Hstep.
  - destruct (lifecycle c) eqn:Hl; try discriminate.
    rewrite (H2 eq_refl) in Hu. by cbn in Hu.
  - destruct (geoPending c); try discriminate.
    by destruct (H3 eq_refl).
  - destruct (geoPending c); try discriminate.
    by destruct (H3 eq_refl).
  - destruct (polling c); try discriminate. injection Hstep as <-.
    cbn. rewrite pendingPasses_app, Hz. done.
  - done.
  - destruct (inflight c !! i) as [[la lo|]|] eqn:Hi; try discriminate.
    pose proof (pendingPasses_delete _ _ _ Hi) as Hd. cbn in Hd. lia.
  - destruct (inflight c !! i) as [[|id]|] eqn:Hi; try discriminate.
    injection Hstep as <-.
    pose proof (pendingPasses_delete _ _ _ Hi) as Hd. cbn in Hd.
    rewrite Hz in Hd. by destruct r.
  - destruct (lifecycle c); try discriminate. by injection Hstep as <-.
Qed.

(** Without a click on "Refresh Passes", an application that has its
    location and no pass request pending never issues one, and keeps its
    passes. *)
Lemma no_automatic_refetch (times100 : number -> number) events :
  forall c c',
  Inv c ->
  userLocation (view c) <> None ->
  pendingPasses (inflight c) = 0 ->
  ClickRefresh ∉ events ->
  react_run times100 c events = Some c' ->
  pendingPasses (inflight c') = 0 /\ passes (view c') = passes (view c).
Proof.
  induction events as [|e events IH]; intros c c' HI Hu Hz Hne Hrun.
  - cbn in Hrun. by injection Hrun as <-.
  - cbn in Hrun.
    destruct (react_step times100 c e) as [c1|] eqn:Hstep; [|done].
    apply not_elem_of_cons in Hne as [Hne1 Hne2].
    pose proof (Inv_react_step times100 c e c1 HI Hstep) as HI1.
    apply react_step_inv in Hstep as (after & Hafter & ->).
    destruct (step_no_refetch c e after HI Hu Hz ltac:(congruence) Hafter)
      as (Hu1 & Hz1 & Hp1).
    destruct (commit_browser_side times100 c after)
      as (Hin & _ & _ & _ & Hv).
    destruct (IH (commit times100 c after) c') as [Hz' Hp']; try done.
    + by destruct Hv as [->|[_ ->]].
    + by rewrite Hin.
    + split; [done|]. rewrite Hp'. by destruct Hv as [->|[_ ->]].
Qed.

(** X15. When a pending pass request of the mounted application is
    rejected, the stored [passes] are what they were, [error] is the
    (non-empty) message of line 74, [loading] is false, and no request is
    issued in its place: none is pending afterwards, and none appears
    until the user clicks "Refresh Passes". *)
Theorem failed_pass_fetch (times100 : number -> number) c i la lo err
  (Hlive : live times100 c)
  (Hmounted : lifecycle c = Mounted)
  (Hpending : inflight c !! i = Some (GetPasses la lo)) :
  exists c',
    react_step times100 c (PassesResponse i (Rejected err)) = Some c' /\
    passes (view c') = passes (view c) /\
    error (view c') = Some passesFailed /\
    passesFailed <> "" /\
    loading (view c') = false /\
    inflight c' = delete i (inflight c) /\
    pendingPasses (inflight c') = 0 /\
    forall events c'',
      ClickRefresh ∉ events ->
      react_run times100 c' events = Some c'' ->
      pendingPasses (inflight c'') = 0 /\
      passes (view c'') = passes (view c).
Proof.
  pose proof (step_PassesResponse c i la lo (Rejected err) Hpending) as Hstep.
  pose proof (live_Inv times100 c Hlive) as HI.
  remember (fetchPasses_resume (Rejected err) (settle i c)) as after
    eqn:Hafter.
  assert (react_step times100 c (PassesResponse i (Rejected err))
          = Some (commit times100 c after))
    as Hreact by (unfold react_step; by rewrite Hstep).
  exists (commit times100 c after). split; [exact Hreact|].
  pose proof (Inv_react_step times100 c _ _ HI Hreact) as HI1.
  destruct HI as [H1 H2 H3 H4 H5 H6 H7 H8].
  pose proof (pendingPasses_delete _ _ _ Hpending) as Hd. cbn in Hd.
  assert (pendingPasses (delete i (inflight c)) = 0) as Hz by lia.
  assert (userLocation (view c) <> None) as Hu.
  { intros Hu. destruct (H1 Hu) as (_ & Hin & _).
    by rewrite Hin in Hpending. }
  destruct (commit_browser_side times100 c after)
    as (Hin & _ & _ & _ & [Hv|[Hl _]]); [|congruence].
  assert (passes (view after) = passes (view c) /\
          error (view after) = Some passesFailed /\
          loading (view after) = false /\
          userLocation (view after) = userLocation (view c) /\
          inflight after = delete i (inflight c))
    as (Hp & He & Hld & Hul & Hdel) by by subst after.
  rewrite Hv, Hin, Hp, He, Hld, Hdel.
  split; [done|]. split; [done|]. split; [done|]. split; [done|].
  split; [done|]. split; [done|].
  intros events c'' Hne Hrun.
  eapply (no_automatic_refetch times100 events) in Hrun; try done.
  - destruct Hrun as [? Hp'']. split; [done|]. by rewrite Hp'', Hv, Hp.
  - by rewrite Hv, Hul.
  - by rewrite Hin, Hdel.
Qed.

End App.

(** ** The model at work on the sample host *)

Lemma sample_located_reachable : reachable sample_Date_parse sample_located.
Proof. by exists sample_events. Defined.

Lemma sample_waiting_reachable : reachable sample_Date_parse sample_waiting.
Proof. by exists [Mount true]. Defined.

Lemma sample_unmounted_reachable :
  reachable sample_Date_parse sample_unmounted.
Proof. by exists (sample_events ++ [Unmount]). Defined.

(** C7 at work: a pass from 00:00:00 to 00:10:00 lasts 10 minutes. *)
Lemma duration_of_600_seconds_witness :
  durationMinutes sample_Date_parse sample_pass = Fin 10.
Proof.
  apply (duration_of_600_seconds sample_Date_parse sample_pass
           1704067200000%Z); reflexivity.
Defined.

(** C10 at work: a string that is not a date. *)
Lemma formatters_total_witness :
  formatTime sample_Date_parse sample_format_valid "tomorrow"
  = Return "Invalid time" /\
  formatDate sample_Date_parse sample_format_valid "tomorrow"
  = Return "Invalid date".
Proof.
  destruct (formatters_total sample_Date_parse sample_format_valid
              "tomorrow") as (_ & _ & Hinvalid & _).
  apply Hinvalid. reflexivity.
Defined.

(** C8 at work: the first poll fails. *)
Lemma poll_frame_witness :
  exists c',
    step sample_Date_parse sample_located
      (LocationResponse 1 (Rejected (AxiosError "Network Error")))
    = Some c' /\
    passes (view c') = passes (view sample_located) /\
    loading (view c') = loading (view sample_located) /\
    error (view c') = error (view sample_located) /\
    satelliteLocation (view c') = None.
Proof.
  eexists. split; [reflexivity|].
  pose proof (poll_frame sample_Date_parse sample_located 1
                (Rejected (AxiosError "Network Error")) _ eq_refl)
    as (_ & _ & Hpasses & Hloading & Herror & Hposition & _).
  repeat split; assumption.
Defined.

(** C9 at work: the first pass fetch fails and the loading screen goes. *)
Lemma fetchPasses_ends_loading_witness :
  exists c',
    step sample_Date_parse sample_located
      (PassesResponse 0 (Rejected (AxiosError "Network Error")))
    = Some c' /\
    loading (view c') = false.
Proof.
  eexists. split; [reflexivity|].
  destruct (fetchPasses_ends_loading sample_Date_parse sample_located)
    as (_ & _ & Hsettled).
  apply (Hsettled 0 (Rejected (AxiosError "Network Error"))). reflexivity.
Defined.

(** C6 at work: the backend answers one pass. *)
Lemma successful_pass_fetch_witness :
  exists c',
    step sample_Date_parse sample_located
      (PassesResponse 0 (Resolved [sample_pass]))
    = Some c' /\
    passes (view c') = [sample_pass].
Proof.
  destruct (successful_pass_fetch sample_Date_parse
              (fun _ _ => [sample_pass]) sample_located 0
              (Fin 51.5) (Fin (-0.12)) sample_located_reachable eq_refl)
    as (c' & C & Hstep & _ & _ & _ & _ & Hpasses & _).
  exists c'. split; assumption.
Defined.

(** C3 at work: the request for the position times out. *)
Lemma geolocation_failure_witness :
  exists c',
    step sample_Date_parse sample_waiting (GeoError TIMEOUT) = Some c' /\
    degraded sample_Date_parse geolocationDenied c'.
Proof.
  destruct (geolocation_failure sample_Date_parse) as [_ Hcallback].
  destruct (Hcallback sample_waiting TIMEOUT sample_waiting_reachable
              eq_refl eq_refl) as (c' & Hstep & Hdegraded & _).
  exists c'. split; assumption.
Defined.

(** C2 at work: located, a pass request pending, still loading. *)
Lemma loading_invariant_witness :
  loading (view sample_located) = true <->
  userLocation (view sample_located) = None \/
  0 < pendingPasses (inflight sample_located).
Proof.
  destruct (loading_invariant sample_Date_parse sample_located
              sample_located_reachable) as (_ & _ & Hiff).
  apply Hiff. discriminate.
Defined.

(** ** Where the specification and the component part *)

(** C2 as stated fails in both directions of time: right after the
    position is known [loading] is still true, and after it has been
    false a click on "Refresh Passes" makes it true again. *)
Lemma loading_with_location :
  (exists c,
     run sample_Date_parse init sample_events = Some c /\
     userLocation (view c) = Some {| lat := Fin 51.5; lng := Fin (-0.12) |} /\
     loading (view c) = true) /\
  (exists c1 c2,
     run sample_Date_parse init
       (sample_events ++ [PassesResponse 0 (Resolved [sample_pass])])
     = Some c1 /\
     loading (view c1) = false /\
     step sample_Date_parse c1 ClickRefresh = Some c2 /\
     userLocation (view c2) = Some {| lat := Fin 51.5; lng := Fin (-0.12) |} /\
     loading (view c2) = true).
Proof. split; repeat eexists. Qed.

(** C3 as stated fails on [loading]: after either kind of geolocation
    failure the fallback is stored and [loading] is still true. *)
Lemma loading_after_geolocation_failure :
  (exists c,
     run sample_Date_parse init [Mount false] = Some c /\
     userLocation (view c) = Some fallbackLocation /\
     loading (view c) = true) /\
  (exists c,
     run sample_Date_parse init [Mount true; GeoError PERMISSION_DENIED]
     = Some c /\
     userLocation (view c) = Some fallbackLocation /\
     loading (view c) = true).
Proof. split; repeat eexists. Qed.

(** ** The rendered page and the transitions on the sample host *)

Lemma sample_failed_reachable : reachable sample_Date_parse sample_failed.
Proof.
  by exists (sample_events
             ++ [PassesResponse 0 (Rejected (AxiosError "Network Error"))]).
Defined.

(** X1 at work: ten minutes between start and end. *)
Lemma duration_nearest_minute_witness :
  exists m : Z,
    durationMinutes sample_Date_parse sample_pass = Fin (inject_Z m) /\
    (60000 * m - 30000 <= 1704067800000 - 1704067200000
     < 60000 * m + 30000)%Z.
Proof.
  apply (duration_nearest_minute sample_Date_parse sample_pass
           1704067200000%Z 1704067800000%Z); reflexivity.
Defined.

(** X2 at work: neither timestamp is a date. *)
Lemma duration_NaN_iff_witness :
  durationMinutes sample_Date_parse sample_undated_pass = NaN.
Proof.
  apply (duration_NaN_iff sample_Date_parse sample_undated_pass).
  left. reflexivity.
Defined.

(** X3 at work: the row of a pass without dates. *)
Lemma passRow_returns_witness :
  exists row,
    passRow sample_Date_parse sample_format_valid sample_times100
      sample_undated_pass = Return row /\
    row_date row = "Invalid date" /\ row_rise row = "Invalid time" /\
    row_max row = "Invalid time" /\ row_set row = "Invalid time".
Proof.
  destruct (passRow_returns sample_Date_parse sample_format_valid
              sample_times100 sample_undated_pass)
    as (row & Hrow & _ & Hstart & Hmax & Hend).
  exists row. split; [exact Hrow|].
  destruct (Hstart eq_refl) as [Hdate Hrise].
  split; [exact Hdate|]. split; [exact Hrise|].
  split; [exact (Hmax eq_refl) | exact (Hend eq_refl)].
Defined.

(** X4 at work: two passes, the second one without dates. *)
Lemma passesPanel_returns_witness :
  exists rows row,
    passesPanel sample_Date_parse sample_format_valid sample_times100
      [sample_pass; sample_undated_pass] = Return (PassRows rows) /\
    rows !! 1 = Some row /\
    passRow sample_Date_parse sample_format_valid sample_times100
      sample_undated_pass = Return row.
Proof.
  destruct (passesPanel_returns sample_Date_parse sample_format_valid
              sample_times100 [sample_pass; sample_undated_pass])
    as (panel & Hpanel & Hrows).
  destruct panel as [message|rows]; [discriminate Hrows|].
  destruct Hrows as (_ & _ & Hrow).
  destruct (Hrow 1 sample_undated_pass eq_refl) as (row & Hlookup & Hreturn).
  exists rows, row. repeat split; assumption.
Defined.

(** X5 at work: a stored position with an invalid date. *)
Lemma renderApp_throws_witness :
  renderApp sample_Date_parse sample_format_valid sample_times100
    sample_undated_view
  = Throw (RangeError "Invalid time value").
Proof.
  apply (renderApp_throws sample_Date_parse sample_format_valid
           sample_times100 sample_undated_view).
  do 2 eexists. repeat split.
Defined.

(** X6 at work: the first poll is answered with the timestamp "soon". *)
Lemma undated_position_breaks_render_witness :
  exists c',
    step sample_Date_parse sample_main
      (LocationResponse 0 (Resolved sample_undated_position)) = Some c' /\
    renderApp sample_Date_parse sample_format_valid sample_times100 (view c')
    = Throw (RangeError "Invalid time value").
Proof.
  destruct (undated_position_breaks_render sample_Date_parse
              sample_format_valid sample_times100 sample_main 0 "ISS"
              sample_undated_position
              {| lat := Fin 51.5; lng := Fin (-0.12) |}
              eq_refl eq_refl eq_refl eq_refl) as (c' & Hstep & _ & Hthrow).
  exists c'. split; assumption.
Defined.

(** X7 at work: a tick and a rejected poll later, the same location. *)
Lemma location_is_final_witness :
  exists c',
    run sample_Date_parse sample_located
      [IntervalTick; LocationResponse 1 (Rejected (AxiosError "timeout"))]
    = Some c' /\
    userLocation (view c') = Some {| lat := Fin 51.5; lng := Fin (-0.12) |}.
Proof.
  eexists. split; [reflexivity|].
  apply (location_is_final sample_Date_parse
           [IntervalTick; LocationResponse 1 (Rejected (AxiosError "timeout"))]
           sample_located _ _ sample_located_reachable eq_refl eq_refl).
Defined.

(** X9 at work: the message of the failed fetch is back on the loading
    screen when the user refreshes. *)
Lemma error_is_never_cleared_witness :
  exists c',
    step sample_Date_parse sample_failed ClickRefresh = Some c' /\
    render (view c')
    = LoadingScreen
        (Some "Failed to fetch satellite passes. Please try again later.").
Proof.
  eexists. split; [reflexivity|].
  destruct (error_is_never_cleared sample_Date_parse sample_failed)
    as (_ & _ & Hrefresh).
  apply Hrefresh. reflexivity.
Defined.

(** X11 at work: three ticks, three more requests. *)
Lemma ticks_pile_up_witness :
  exists c',
    run sample_Date_parse sample_located
      [IntervalTick; IntervalTick; IntervalTick] = Some c' /\
    inflight c'
    = [GetPasses (Fin 51.5) (Fin (-0.12)); GetLocation "ISS";
       GetLocation "ISS"; GetLocation "ISS"; GetLocation "ISS"].
Proof.
  destruct (ticks_pile_up sample_Date_parse 3 sample_located eq_refl)
    as (c' & Hrun & Hinflight & _).
  exists c'. split; assumption.
Defined.


(** X13 at work: a score of three tenths is red. *)
Lemma visibilityBadge_monotone_witness :
  visibilityBadge (Fin 0.3) = Red.
Proof.
  destruct visibilityBadge_monotone as (_ & _ & Hred & _).
  apply Hred. vm_compute. discriminate.
Defined.

(** X14 at work: the poll in flight at teardown is answered. *)
Lemma no_request_after_teardown_witness :
  exists c',
    run sample_Date_parse sample_unmounted
      [LocationResponse 1 (Resolved sample_position)] = Some c' /\
    polling c' = false /\
    List.length (inflight c') <= 2.
Proof.
  eexists. split; [reflexivity|].
  destruct (no_request_after_teardown sample_Date_parse
              [LocationResponse 1 (Resolved sample_position)]
              sample_unmounted _ sample_unmounted_reachable eq_refl eq_refl)
    as (_ & Hpolling & Hlength).
  split; assumption.
Defined.

(** ** The running application on the sample host *)

Lemma sample_formats : forall ms : Z, exists shown,
  sample_format_valid ms "HH:mm:ss" = Return shown.
Proof. intros ms. by exists "HH:mm:ss". Defined.

Lemma sample_located_live :
  live sample_Date_parse sample_format_valid sample_times100 sample_located.
Proof. by exists sample_events. Defined.

Lemma sample_main_live :
  live sample_Date_parse sample_format_valid sample_times100 sample_main.
Proof.
  by exists (sample_events ++ [PassesResponse 0 (Resolved [sample_pass])]).
Defined.

(** C1 at work: the component is unmounted while its first poll is in
    flight; the answer arrives, and no position is stored. *)
Lemma teardown_is_final_witness :
  exists c c',
    react_step sample_Date_parse sample_format_valid sample_times100
      sample_located Unmount = Some c /\
    react_step sample_Date_parse sample_format_valid sample_times100
      c (LocationResponse 1 (Resolved sample_position)) = Some c' /\
    satelliteLocation (view c') = None.
Proof.
  destruct (teardown_is_final sample_Date_parse sample_format_valid
              sample_times100 sample_located eq_refl)
    as (c & Hunmount & _ & _ & Hinflight & _ & _ & Hanswer & _).
  destruct (Hanswer 1 "ISS" (Resolved sample_position)) as (c' & Hstep & _ & Hposition).
  { rewrite Hinflight. reflexivity. }
  exists c, c'. repeat split; assumption.
Defined.

(** C4 at work: three polls that do not overlap, the second one fails;
    the payload of the third is stored. *)
Lemma poller_keeps_last_arrival_witness :
  exists c',
    react_run sample_Date_parse sample_format_valid sample_times100
      sample_located
      (tickEvents 2
         [Resolved sample_position; Rejected (AxiosError "timeout");
          Resolved sample_position'])
    = Some c' /\
    polling c' = true /\
    holds sample_Date_parse sample_position' (satelliteLocation (view c')).
Proof.
  destruct (poller_keeps_last_arrival sample_Date_parse sample_format_valid
              sample_times100 sample_located sample_formats
              eq_refl eq_refl eq_refl) as (_ & Hticks & _).
  apply (Hticks [Resolved sample_position; Rejected (AxiosError "timeout");
                 Resolved sample_position']).
  repeat constructor.
Defined.

(** C5 at work: a body cut off after its second character. *)
Lemma malformed_body_is_stored_witness :
  cell_passes
    (fetchPasses_settled
       (Resolved (axios_data sample_JSON_parse "[{")) sample_cells)
  = Unparsed "[{" /\
  cell_error
    (fetchPasses_settled
       (Resolved (axios_data sample_JSON_parse "[{")) sample_cells)
  = None.
Proof.
  destruct (malformed_body_is_stored sample_JSON_parse "[{" sample_cells
              eq_refl) as (Hpasses & Herror & _).
  split; assumption.
Defined.

(** X8 at work: the first pass fetch is answered, the button is there. *)
Lemma one_pass_fetch_at_a_time_witness :
  refreshButton sample_main = true /\
  exists loc marker panel,
    renderApp sample_Date_parse sample_format_valid sample_times100
      (view sample_main) = Return (MainPage loc marker panel).
Proof.
  destruct (one_pass_fetch_at_a_time sample_Date_parse sample_format_valid
              sample_times100 sample_main sample_main_live)
    as (_ & _ & Hpage).
  split; [reflexivity|]. apply Hpage. reflexivity.
Defined.

(** X10 at work: one callback gave the location. *)
Lemma location_resolves_once_witness :
  resolutions sample_events <= 1 /\
  (userLocation (view sample_located) <> None ->
   resolutions sample_events = 1).
Proof.
  destruct (location_resolves_once sample_Date_parse sample_format_valid
              sample_times100 sample_events sample_located eq_refl)
    as (Hle & _ & Hone).
  split; assumption.
Defined.

(** X15 at work: the first pass fetch is rejected. *)
Lemma failed_pass_fetch_witness :
  exists c',
    react_step sample_Date_parse sample_format_valid sample_times100
      sample_located
      (PassesResponse 0 (Rejected (AxiosError "Network Error")))
    = Some c' /\
    passes (view c') = [] /\
    error (view c')
    = Some "Failed to fetch satellite passes. Please try again later.".
Proof.
  destruct (failed_pass_fetch sample_Date_parse sample_format_valid
              sample_times100 sample_located 0
              (Fin 51.5) (Fin (-0.12)) (AxiosError "Network Error")
              sample_located_live eq_refl eq_refl)
    as (c' & Hstep & Hpasses & Herror & _).
  exists c'. repeat split; assumption.
Defined.

(** C4 as stated fails.  Three polls are under way, the second of them
    is rejected, and the answers arrive in the reverse order: what is
    stored in the end is the payload of the first poll, not that of the
    third, which is the most recent one that succeeded.  And a poll that
    succeeds with a timestamp that is not a date, once the main screen is
    up, ends the polling: the render throws, the tree is removed and the
    timer is cleared. *)
Lemma most_recent_poll_not_kept :
  (exists c,
     react_run sample_Date_parse sample_format_valid sample_times100 init
       (sample_events
        ++ [IntervalTick; IntervalTick;
            LocationResponse 3 (Resolved sample_position');
            LocationResponse 2 (Rejected (AxiosError "timeout"));
            LocationResponse 1 (Resolved sample_position)])
     = Some c /\
     lifecycle c = Mounted /\
     satelliteLocation (view c)
     = Some {| sat_lat := Fin 51.5; sat_lng := Fin (-0.12);
               sat_alt := Fin 420; sat_name := "ISS";
               sat_timestamp := ValidDate 1704067200000 |}) /\
  (exists c,
     react_run sample_Date_parse sample_format_valid sample_times100 init
       (sample_events
        ++ [PassesResponse 0 (Resolved [sample_pass]);
            LocationResponse 0 (Resolved sample_undated_position)])
     = Some c /\
     lifecycle c = Unmounted /\ polling c = false /\
     react_step sample_Date_parse sample_format_valid sample_times100
       c IntervalTick = None).
Proof. split; eexists; repeat split. Qed.
